(** * Pod resource-limits checker: evaluation, annotation and reporting

    A shallow embedding of [k8s_pod_limits_checker.py] and the proofs of the
    properties its specification states about it.

    Conventions of the embedding:
    - Python [str] is [string]; one [ascii] stands for one character, so the
      characters of a string have codes below 256.
    - The Kubernetes client objects are records carrying the attributes the
      program reads.  The client declares [V1ResourceRequirements.limits] as
      [dict(str, str)]: an optional finite map from strings to strings.
    - Python [for] loops over a list are left folds of the loop body over
      the list, with the mutated local variables as the accumulator.
    - Calls to the logger have no effect on any returned value and are left
      out: neither the log file nor the log lines on the console are
      modelled. *)

From Stdlib Require Import String Ascii List Bool Arith Lia.
From stdpp Require Import base option list gmap strings.

Local Open Scope string_scope.
Local Open Scope list_scope.
Local Open Scope stdpp_scope.

(** ** Data model *)

(** [ContainerLimitIssue]: the dataclass of the source. *)
Record ContainerLimitIssue := mkIssue {
  namespace : string;
  pod_name : string;
  container_name : string;
  missing_cpu_limit : bool;
  missing_memory_limit : bool
}.

(** The attributes of the client objects that the program reads.  A pod the
    API server returns always has its metadata, its spec and the list of its
    containers; a container's resources, and the limits in them, are
    optional. *)
Module V1.

Record ResourceRequirements := mkResources {
  limits : option (gmap string string)
}.

Record Container := mkContainer {
  name : string;
  resources : option ResourceRequirements
}.

Record ObjectMeta := mkMeta {
  meta_namespace : string;
  meta_name : string
}.

Record PodSpec := mkSpec {
  containers : list Container
}.

Record Pod := mkPod {
  metadata : ObjectMeta;
  spec : PodSpec
}.

End V1.

(** ** Evaluator *)

(** [limits = resources.limits if resources else None] *)
Definition container_limits (container : V1.Container) : option (gmap string string) :=
  match V1.resources container with
  | Some resources => V1.limits resources
  | None => None
  end.

(** [limits is None or limits.get(key) is None].  The values of the mapping
    are strings, never [None], so [limits.get(key)] is [None] exactly when
    the key is absent. *)
Definition limit_missing (limits : option (gmap string string)) (key : string) : bool :=
  match limits with
  | None => true
  | Some d => bool_decide (d !! key = None)
  end.

(** Body of the inner loop [for container in containers]; the accumulator is
    the list [containers_with_issues]. *)
Definition check_container (namespace_name pod_name : string)
    (containers_with_issues : list ContainerLimitIssue)
    (container : V1.Container) : list ContainerLimitIssue :=
  let limits := container_limits container in
  let missing_cpu := limit_missing limits "cpu" in
  let missing_memory := limit_missing limits "memory" in
  if missing_cpu || missing_memory then
    let issue := {| namespace := namespace_name;
                    pod_name := pod_name;
                    container_name := V1.name container;
                    missing_cpu_limit := missing_cpu;
                    missing_memory_limit := missing_memory |} in
    containers_with_issues ++ [issue]
  else containers_with_issues.

(** Body of the outer loop [for pod in pod_list.items]. *)
Definition check_pod (containers_with_issues : list ContainerLimitIssue)
    (pod : V1.Pod) : list ContainerLimitIssue :=
  let namespace_name := V1.meta_namespace (V1.metadata pod) in
  let pod_name := V1.meta_name (V1.metadata pod) in
  let containers := V1.containers (V1.spec pod) in
  fold_left (check_container namespace_name pod_name) containers containers_with_issues.

(** The two nested loops, started on the empty list. *)
Definition evaluate_pods (items : list V1.Pod) : list ContainerLimitIssue :=
  fold_left check_pod items [].

(** ** Specification-side vocabulary for the evaluator *)

(** The Finding a container gives rise to, if any. *)
Definition finding_of (pc : V1.Pod * V1.Container) : option ContainerLimitIssue :=
  let '(pod, container) := pc in
  let limits := container_limits container in
  if limit_missing limits "cpu" || limit_missing limits "memory" then
    Some (mkIssue (V1.meta_namespace (V1.metadata pod))
                  (V1.meta_name (V1.metadata pod))
                  (V1.name container)
                  (limit_missing limits "cpu")
                  (limit_missing limits "memory"))
  else None.

(** The snapshot's nested iteration order: every (pod, container) pair, pods
    in snapshot order and containers in pod order. *)
Definition snapshot_order (items : list V1.Pod) : list (V1.Pod * V1.Container) :=
  flat_map (fun pod => map (pair pod) (V1.containers (V1.spec pod))) items.

(** ** Cluster API

    The program reaches the cluster only through the client object
    [self.v1_client].  The client is a record of the three operations the
    program calls; [K] is the state of the cluster.  Each operation either
    returns or raises; the program distinguishes [ApiException] from every
    other exception only in what it logs. *)

Inductive ListResult :=
| ListOk (items : list V1.Pod)
| ListApiException
| ListException.

Inductive PatchResult :=
| PatchOk
| PatchApiException
| PatchException.

Record CoreV1Api (K : Type) := mkApi {
  list_namespaced_pod : K -> string -> ListResult;
  list_pod_for_all_namespaces : K -> ListResult;
  (* name, namespace, annotations of the patch body *)
  patch_namespaced_pod : K -> string -> string -> gmap string string -> PatchResult * K
}.
Arguments list_namespaced_pod {K}.
Arguments list_pod_for_all_namespaces {K}.
Arguments patch_namespaced_pod {K}.

(** One call of [patch_namespaced_pod], as the cluster receives it.  The body
    [{"metadata": {"annotations": a}}] is represented by its annotations [a]. *)
Record PatchCall := mkCall {
  call_name : string;
  call_namespace : string;
  call_annotations : gmap string string
}.

(** The outside world: the cluster and the patch calls it has received. *)
Record World (K : Type) := mkWorld {
  cluster : K;
  patch_calls : list PatchCall
}.
Arguments mkWorld {K}.
Arguments cluster {K}.
Arguments patch_calls {K}.

(** Outcome of [config.load_incluster_config()] or [config.load_kube_config()]:
    a loaded configuration determines the cluster that [client.CoreV1Api()]
    talks to. *)
Inductive LoadResult (K : Type) :=
| LoadOk (api : CoreV1Api K)
| LoadConfigException
| LoadException.
Arguments LoadOk {K}.
Arguments LoadConfigException {K}.
Arguments LoadException {K}.

Record Config (K : Type) := mkConfig {
  load_incluster_config : LoadResult K;
  load_kube_config : LoadResult K
}.
Arguments mkConfig {K}.
Arguments load_incluster_config {K}.
Arguments load_kube_config {K}.

(** ** The checker object *)

(** [KubernetesPodChecker]: its only mutable attribute is [v1_client],
    [None] until [connect] succeeds. *)
Record KubernetesPodChecker (K : Type) := mkChecker {
  v1_client : option (CoreV1Api K)
}.
Arguments mkChecker {K}.
Arguments v1_client {K}.

(** [KubernetesPodChecker.connect] *)
Definition connect {K} (config : Config K) (self : KubernetesPodChecker K)
  : bool * KubernetesPodChecker K :=
  match load_incluster_config config with
  | LoadOk api => (true, mkChecker (Some api))
  | LoadConfigException =>
      match load_kube_config config with
      | LoadOk api => (true, mkChecker (Some api))
      | LoadConfigException => (false, self)
      | LoadException => (false, self)
      end
  | LoadException => (false, self)
  end.

(** Truth value of [namespace] in [if namespace:]. *)
Definition namespace_given (ns : option string) : option string :=
  match ns with
  | Some s => if bool_decide (s = "") then None else Some s
  | None => None
  end.

(** The listing call of [get_containers_with_missing_limits]: one namespace
    if [namespace] is truthy, every namespace otherwise. *)
Definition list_pods {K} (api : CoreV1Api K) (ns : option string) (k : K) : ListResult :=
  match namespace_given ns with
  | Some s => list_namespaced_pod api k s
  | None => list_pod_for_all_namespaces api k
  end.

(** [KubernetesPodChecker.get_containers_with_missing_limits].  An attribute
    access on a [None] client raises inside the [try] and is caught by
    [except Exception]. *)
Definition get_containers_with_missing_limits {K} (self : KubernetesPodChecker K)
    (ns : option string) (k : K) : list ContainerLimitIssue :=
  match v1_client self with
  | None => []
  | Some api =>
      match list_pods api ns k with
      | ListOk items => evaluate_pods items
      | ListApiException => []
      | ListException => []
      end
  end.

(** ** Annotator *)

(** The [if]/[elif] chain of [annotate_pod]; [None] is the final [else]. *)
Definition annotation_value (missing_cpu missing_memory : bool) : option string :=
  if missing_cpu && missing_memory then Some "no-limits"
  else if missing_cpu then Some "no-cpu-limit"
  else if missing_memory then Some "no-memory-limit"
  else None.

(** [KubernetesPodChecker.annotate_pod] *)
Definition annotate_pod {K} (self : KubernetesPodChecker K)
    (ns pod : string) (missing_cpu missing_memory : bool) (w : World K)
  : bool * World K :=
  match annotation_value missing_cpu missing_memory with
  | None => (false, w)
  | Some value =>
      let patch : gmap string string := {[ "warning" := value ]} in
      match v1_client self with
      | None => (false, w)
      | Some api =>
          let '(result, k') := patch_namespaced_pod api (cluster w) pod ns patch in
          let w' := mkWorld k' (patch_calls w ++ [mkCall pod ns patch]) in
          match result with
          | PatchOk => (true, w')
          | PatchApiException => (false, w')
          | PatchException => (false, w')
          end
      end
  end.

(** The values of the dictionary [pods_to_annotate]. *)
Record PodInfo := mkInfo {
  info_namespace : string;
  info_pod_name : string;
  info_missing_cpu : bool;
  info_missing_memory : bool
}.

Definition set_missing_cpu (info : PodInfo) : PodInfo :=
  mkInfo (info_namespace info) (info_pod_name info) true (info_missing_memory info).

Definition set_missing_memory (info : PodInfo) : PodInfo :=
  mkInfo (info_namespace info) (info_pod_name info) (info_missing_cpu info) true.

(** A Python [dict] with string keys: the entries in insertion order, which
    is the order [values()] iterates in. *)
Definition dict (V : Type) := list (string * V).

(** [key in d] *)
Definition dict_contains {V} (key : string) (d : dict V) : bool :=
  existsb (fun kv => bool_decide (fst kv = key)) d.

(** [d[key] = f(d[key])], for a key that is present. *)
Definition dict_update {V} (key : string) (f : V -> V) (d : dict V) : dict V :=
  fmap (M := list) (fun kv => if bool_decide (fst kv = key) then (fst kv, f (snd kv)) else kv) d.

(** [d.values()] *)
Definition dict_values {V} (d : dict V) : list V := d.*2.

(** [f"{issue.namespace}/{issue.pod_name}"] *)
Definition pod_key (issue : ContainerLimitIssue) : string :=
  namespace issue +:+ "/" +:+ pod_name issue.

(** Body of the grouping loop [for issue in issues]. *)
Definition group_issue (pods_to_annotate : dict PodInfo) (issue : ContainerLimitIssue)
  : dict PodInfo :=
  let key := pod_key issue in
  let d1 :=
    if negb (dict_contains key pods_to_annotate) then
      pods_to_annotate ++ [(key, mkInfo (namespace issue) (pod_name issue) false false)]
    else pods_to_annotate in
  let d2 := if missing_cpu_limit issue then dict_update key set_missing_cpu d1 else d1 in
  let d3 := if missing_memory_limit issue then dict_update key set_missing_memory d2 else d2 in
  d3.

Definition group_issues (issues : list ContainerLimitIssue) : dict PodInfo :=
  fold_left group_issue issues [].

(** Body of the loop [for pod_info in pods_to_annotate.values()]; the
    accumulator is [(success_count, failure_count)] and the world. *)
Definition annotate_step {K} (self : KubernetesPodChecker K)
    (acc : nat * nat * World K) (pod_info : PodInfo) : nat * nat * World K :=
  let '(success_count, failure_count, w) := acc in
  let '(ok, w') := annotate_pod self (info_namespace pod_info) (info_pod_name pod_info)
                     (info_missing_cpu pod_info) (info_missing_memory pod_info) w in
  if ok then (success_count + 1, failure_count, w')
  else (success_count, failure_count + 1, w').

(** [KubernetesPodChecker.annotate_pods_with_issues] *)
Definition annotate_pods_with_issues {K} (self : KubernetesPodChecker K)
    (issues : list ContainerLimitIssue) (w : World K) : nat * nat * World K :=
  let pods_to_annotate := group_issues issues in
  fold_left (annotate_step self) (dict_values pods_to_annotate) (0, 0, w).

(** ** String helpers of the reporters *)

(** The newline and double-quote characters. *)
Definition nl : string := String "010"%char "".
Definition dq : string := String "034"%char "".

(** [sep.join(parts)] *)
Fixpoint str_join (sep : string) (parts : list string) : string :=
  match parts with
  | [] => ""
  | [s] => s
  | s :: rest => s +:+ sep +:+ str_join sep rest
  end.

(** [c * n] for a one-character string [c]. *)
Fixpoint str_repeat (c : string) (n : nat) : string :=
  match n with
  | 0 => ""
  | S n' => c +:+ str_repeat c n'
  end.

(** [f"{val:<{width}}"]: pad on the right with spaces, never truncate. *)
Definition ljust (val : string) (width : nat) : string :=
  val +:+ str_repeat " " (width - String.length val).

(** [max((len(f(issue)) for issue in issues), default=0)] *)
Definition max_len (f : ContainerLimitIssue -> string) (issues : list ContainerLimitIssue) : nat :=
  fold_left (fun m issue => Nat.max m (String.length (f issue))) issues 0.

(** [str(b)] *)
Definition str_of_bool (b : bool) : string := if b then "True" else "False".

(** ** The JSON encoder, as far as [format_json] uses it *)

Module json.

(** Python values that [asdict] of a [ContainerLimitIssue] and a list of
    such dictionaries are made of. *)
#[warnings="-register-all"] Inductive value :=
| Str (s : string)
| Bool (b : bool)
| List (items : list value)
| Dict (entries : list (string * value)).

(** One lower-case hexadecimal digit. *)
Definition hex_digit (n : nat) : string :=
  String (nth n (list_ascii_of_string "0123456789abcdef") "0"%char) "".

(** ['\\u{0:04x}'.format(n)] for [n < 256], the codes a character of a
    [string] can have: the escape is [\u00] and two digits.  The escapes
    Python writes for higher code points are outside the model. *)
Definition unicode_escape (n : nat) : string :=
  "\u00" +:+ hex_digit (n / 16) +:+ hex_digit (n mod 16).

(** The replacement [ESCAPE_ASCII] makes for one character: backslash and
    double quote, the short escapes, and [\uXXXX] for everything outside
    the printable range from space to tilde. *)
Definition escape_char (c : ascii) : string :=
  let n := nat_of_ascii c in
  if (n =? 92)%nat then "\\"
  else if (n =? 34)%nat then "\" +:+ dq
  else if (n =? 8)%nat then "\b"
  else if (n =? 12)%nat then "\f"
  else if (n =? 10)%nat then "\n"
  else if (n =? 13)%nat then "\r"
  else if (n =? 9)%nat then "\t"
  else if (n <? 32)%nat || (126 <? n)%nat then unicode_escape n
  else String c "".

Fixpoint escape (s : string) : string :=
  match s with
  | EmptyString => ""
  | String c rest => escape_char c +:+ escape rest
  end.

(** [py_encode_basestring_ascii] *)
Definition encode_string (s : string) : string := dq +:+ escape s +:+ dq.

(** [indent * level] with [indent=2]. *)
Definition indentation (level : nat) : string := str_repeat " " (2 * level).

(** [json.dumps(v, indent=2)] at nesting depth [level]: an empty list or
    dictionary is [[]] or [{}]; otherwise every item is on a line of its
    own, one level deeper, items separated by a comma, and the closing
    bracket is on a line of its own at the current level. *)
Fixpoint encode (level : nat) (v : value) : string :=
  match v with
  | Str s => encode_string s
  | Bool b => if b then "true" else "false"
  | List [] => "[]"
  | List items =>
      let newline_indent := nl +:+ indentation (S level) in
      "[" +:+ newline_indent +:+
      str_join ("," +:+ newline_indent) (map (encode (S level)) items) +:+
      nl +:+ indentation level +:+ "]"
  | Dict [] => "{}"
  | Dict entries =>
      let newline_indent := nl +:+ indentation (S level) in
      "{" +:+ newline_indent +:+
      str_join ("," +:+ newline_indent)
        (map (fun kv => encode_string (fst kv) +:+ ": " +:+ encode (S level) (snd kv))
             entries) +:+
      nl +:+ indentation level +:+ "}"
  end.

Definition dumps (v : value) : string := encode 0 v.

(** Reading a string back from the inside of its literal, as a JSON parser
    does: the value of a hexadecimal digit, and the undoing of the escapes.
    A bare double quote ends the literal and a dangling or unknown escape
    is an error: both give [None]. *)
Definition hex_value (c : ascii) : option nat :=
  let n := nat_of_ascii c in
  if (48 <=? n)%nat && (n <=? 57)%nat then Some (n - 48)
  else if (97 <=? n)%nat && (n <=? 102)%nat then Some (n - 87)
  else if (65 <=? n)%nat && (n <=? 70)%nat then Some (n - 55)
  else None.

Definition unescape_short (e : ascii) : option ascii :=
  let n := nat_of_ascii e in
  if (n =? 92)%nat then Some "\"%char
  else if (n =? 34)%nat then Some "034"%char
  else if (n =? 47)%nat then Some "/"%char
  else if (n =? 98)%nat then Some "008"%char
  else if (n =? 102)%nat then Some "012"%char
  else if (n =? 110)%nat then Some "010"%char
  else if (n =? 114)%nat then Some "013"%char
  else if (n =? 116)%nat then Some "009"%char
  else None.

Fixpoint unescape (s : string) : option string :=
  match s with
  | EmptyString => Some EmptyString
  | String c rest =>
      if (nat_of_ascii c =? 92)%nat then
        match rest with
        | EmptyString => None
        | String e rest' =>
            if (nat_of_ascii e =? 117)%nat then
              match rest' with
              | String "0" (String "0" (String h (String l rest''))) =>
                  match hex_value h, hex_value l, unescape rest'' with
                  | Some x, Some y, Some tail =>
                      Some (String (ascii_of_nat (16 * x + y)) tail)
                  | _, _, _ => None
                  end
              | _ => None
              end
            else
              match unescape_short e, unescape rest' with
              | Some c', Some tail => Some (String c' tail)
              | _, _ => None
              end
        end
      else if (nat_of_ascii c =? 34)%nat then None
      else
        match unescape rest with
        | Some tail => Some (String c tail)
        | None => None
        end
  end.

End json.

(** [dataclasses.asdict(issue)]: the five fields in declaration order. *)
Definition asdict (issue : ContainerLimitIssue) : json.value :=
  json.Dict [ ("namespace", json.Str (namespace issue));
              ("pod_name", json.Str (pod_name issue));
              ("container_name", json.Str (container_name issue));
              ("missing_cpu_limit", json.Bool (missing_cpu_limit issue));
              ("missing_memory_limit", json.Bool (missing_memory_limit issue)) ].

(** ** Reporters *)

Module OutputFormatter.

Definition headers : list string :=
  ["NAMESPACE"; "POD NAME"; "CONTAINER NAME"; "MISSING CPU"; "MISSING MEMORY"].

Definition col_widths (issues : list ContainerLimitIssue) : list nat :=
  [ Nat.max (String.length (nth 0 headers "")) (max_len namespace issues);
    Nat.max (String.length (nth 1 headers "")) (max_len pod_name issues);
    Nat.max (String.length (nth 2 headers "")) (max_len container_name issues);
    String.length (nth 3 headers "");
    String.length (nth 4 headers "") ].

Definition separator (widths : list nat) : string :=
  "+" +:+ str_join "+" (map (fun w => str_repeat "-" (w + 2)) widths) +:+ "+".

(** The five cell values of one body row. *)
Definition table_cells (issue : ContainerLimitIssue) : list string :=
  [ namespace issue;
    pod_name issue;
    container_name issue;
    if missing_cpu_limit issue then "YES" else "NO";
    if missing_memory_limit issue then "YES" else "NO" ].

(** ["| " + " | ".join(f"{val:<{col_widths[i]}}" for i, val in enumerate(vals)) + " |"] *)
Definition table_line (widths : list nat) (vals : list string) : string :=
  "| " +:+ str_join " | " (imap (fun i val => ljust val (nth i widths 0)) vals) +:+ " |".

(** The list [lines] of [format_table] just before the final join, for a
    non-empty [issues]. *)
Definition table_lines (issues : list ContainerLimitIssue) : list string :=
  let widths := col_widths issues in
  let lines := [] in
  let lines := lines ++ [separator widths] in
  let lines := lines ++ [table_line widths headers] in
  let lines := lines ++ [separator widths] in
  let lines :=
    fold_left (fun lines issue => lines ++ [table_line widths (table_cells issue)])
              issues lines in
  lines ++ [separator widths].

(** [OutputFormatter.format_table] *)
Definition format_table (issues : list ContainerLimitIssue) : string :=
  match issues with
  | [] => "No containers with missing resource limits found."
  | _ :: _ => str_join nl (table_lines issues)
  end.

(** The f-string of [format_csv]. *)
Definition csv_line (issue : ContainerLimitIssue) : string :=
  dq +:+ namespace issue +:+ dq +:+ "," +:+
  dq +:+ pod_name issue +:+ dq +:+ "," +:+
  dq +:+ container_name issue +:+ dq +:+ "," +:+
  dq +:+ str_of_bool (missing_cpu_limit issue) +:+ dq +:+ "," +:+
  dq +:+ str_of_bool (missing_memory_limit issue) +:+ dq.

Definition csv_header : string :=
  "NAMESPACE,POD_NAME,CONTAINER_NAME,MISSING_CPU_LIMIT,MISSING_MEMORY_LIMIT".

(** The list [lines] of [format_csv] just before the final join. *)
Definition csv_lines (issues : list ContainerLimitIssue) : list string :=
  fold_left (fun lines issue => lines ++ [csv_line issue]) issues [csv_header].

(** [OutputFormatter.format_csv] *)
Definition format_csv (issues : list ContainerLimitIssue) : string :=
  str_join nl (csv_lines issues).

(** [OutputFormatter.format_json] *)
Definition format_json (issues : list ContainerLimitIssue) : string :=
  json.dumps (json.List (map asdict issues)).

End OutputFormatter.

(** ** Entry point *)

(** The parsed command line, as far as [main] reads it after logging is set
    up. *)
Record Args := mkArgs {
  output : string;
  namespace_arg : option string;
  annotate : bool
}.

(** What one run of [main] leaves behind: the exit code, the texts passed
    to [print] (the report; the lines the logger's console handler writes
    are not modelled), and the world. *)
Record Run (K : Type) := mkRun {
  exit_code : nat;
  printed : list string;
  world : World K
}.
Arguments mkRun {K}.
Arguments exit_code {K}.
Arguments printed {K}.
Arguments world {K}.

(** The reporter [main] selects by [args.output]. *)
Definition render (fmt : string) (issues : list ContainerLimitIssue) : string :=
  if bool_decide (fmt = "json") then OutputFormatter.format_json issues
  else if bool_decide (fmt = "csv") then OutputFormatter.format_csv issues
  else OutputFormatter.format_table issues.

(** [main], from the construction of the checker on. *)
Definition main {K} (args : Args) (config : Config K) (w : World K) : Run K :=
  let checker := mkChecker None in
  let '(connected, checker) := connect config checker in
  if negb connected then mkRun 1 [] w
  else
    let issues := get_containers_with_missing_limits checker (namespace_arg args) (cluster w) in
    let w :=
      if annotate args && negb (bool_decide (issues = [])) then
        let '(success_count, failure_count, w') := annotate_pods_with_issues checker issues w in
        w'
      else w in
    mkRun 0 [render (output args) issues] w.

(** ** Vocabulary of the specification *)

(** The limits mapping of a container is absent: the container has no
    resources, or its resources have no limits. *)
Definition limits_absent (container : V1.Container) : Prop :=
  V1.resources container = None \/
  exists resources,
    V1.resources container = Some resources /\ V1.limits resources = None.

(** The container has a limits mapping and [key] is not one of its keys. *)
Definition key_absent (container : V1.Container) (key : string) : Prop :=
  exists resources d,
    V1.resources container = Some resources /\ V1.limits resources = Some d /\
    key ∉ dom d.

(** A container has no limit for [key]: its limits mapping is absent, or the
    mapping does not have the key. *)
Definition lacks_limit (container : V1.Container) (key : string) : Prop :=
  limits_absent container \/ key_absent container key.

(** [f] is the Finding of [container] of [pod]: it carries their names, and
    each of its flags says whether the container lacks that limit. *)
Definition finding_for (pod : V1.Pod) (container : V1.Container)
    (f : ContainerLimitIssue) : Prop :=
  namespace f = V1.meta_namespace (V1.metadata pod) /\
  pod_name f = V1.meta_name (V1.metadata pod) /\
  container_name f = V1.name container /\
  (missing_cpu_limit f = true <-> lacks_limit container "cpu") /\
  (missing_memory_limit f = true <-> lacks_limit container "memory").

(** [emits pairs findings]: going through the (pod, container) pairs in
    order, a container that lacks neither limit gives nothing and a
    container that lacks one gives its Finding; [findings] is what comes
    out. *)
Inductive emits : list (V1.Pod * V1.Container) -> list ContainerLimitIssue -> Prop :=
| emits_nil : emits [] []
| emits_skip pod container pairs findings :
    ~ (lacks_limit container "cpu" \/ lacks_limit container "memory") ->
    emits pairs findings ->
    emits ((pod, container) :: pairs) findings
| emits_keep pod container f pairs findings :
    lacks_limit container "cpu" \/ lacks_limit container "memory" ->
    finding_for pod container f ->
    emits pairs findings ->
    emits ((pod, container) :: pairs) (f :: findings).

(** A container with the limits mapping [d]. *)
Definition container_with_limits (name : string) (d : gmap string string) : V1.Container :=
  V1.mkContainer name (Some (V1.mkResources (Some d))).

(** The pod a Finding belongs to, and the pod a patch call addresses. *)
Definition issue_pod (issue : ContainerLimitIssue) : string * string :=
  (namespace issue, pod_name issue).

Definition call_target (c : PatchCall) : string * string :=
  (call_namespace c, call_name c).

(** The Findings of one pod. *)
Definition pod_group (p : string * string) (issues : list ContainerLimitIssue)
  : list ContainerLimitIssue :=
  filter (fun issue => issue_pod issue = p) issues.

(** The label of a pod whose Findings together miss [cpu] and [memory]. *)
Inductive label_of : bool -> bool -> string -> Prop :=
| label_both : label_of true true "no-limits"
| label_cpu : label_of true false "no-cpu-limit"
| label_memory : label_of false true "no-memory-limit".

(** One patch call per distinct pod of [issues], each carrying the label of
    the logical OR over the pod's Findings. *)
Definition one_patch_per_pod (issues : list ContainerLimitIssue) (calls : list PatchCall) : Prop :=
  NoDup (call_target <$> calls) /\
  (forall p, p ∈ call_target <$> calls <-> p ∈ issue_pod <$> issues) /\
  (forall c, c ∈ calls ->
     exists v, call_annotations c = {[ "warning" := v ]} /\
       label_of (existsb missing_cpu_limit (pod_group (call_target c) issues))
                (existsb missing_memory_limit (pod_group (call_target c) issues)) v).

(** The number of distinct pods among the Findings. *)
Definition distinct_pods (issues : list ContainerLimitIssue) : nat :=
  length (remove_dups (issue_pod <$> issues)).

(** The patch calls made between two worlds. *)
Definition calls_since {K} (w w' : World K) : list PatchCall :=
  drop (length (patch_calls w)) (patch_calls w').

(** No [/] in a name; Kubernetes names never contain one. *)
Fixpoint slash_free (s : string) : bool :=
  match s with
  | EmptyString => true
  | String c rest => negb (Ascii.eqb c "/") && slash_free rest
  end.

(** A credential path fails when the loader raises. *)
Definition load_fails {K} (r : LoadResult K) : bool :=
  match r with
  | LoadOk _ => false
  | LoadConfigException => true
  | LoadException => true
  end.

Definition listing_fails (r : ListResult) : bool :=
  match r with
  | ListOk _ => false
  | ListApiException => true
  | ListException => true
  end.

(** The five logical field values of a Finding. *)
Definition logical (issue : ContainerLimitIssue) : string * string * string * bool * bool :=
  (namespace issue, pod_name issue, container_name issue,
   missing_cpu_limit issue, missing_memory_limit issue).

(** Reading the truth value back from each format's boolean text. *)
Definition table_bool (s : string) : option bool :=
  if bool_decide (s = "YES") then Some true
  else if bool_decide (s = "NO") then Some false
  else None.

Definition csv_bool (s : string) : option bool :=
  if bool_decide (s = "True") then Some true
  else if bool_decide (s = "False") then Some false
  else None.

(** Reading the five values back from a row of five texts. *)
Definition row_values (read_bool : string -> option bool) (row : list string)
  : option (string * string * string * bool * bool) :=
  match row with
  | [ns; pod; container; cpu; memory] =>
      match read_bool cpu, read_bool memory with
      | Some c, Some m => Some (ns, pod, container, c, m)
      | _, _ => None
      end
  | _ => None
  end.

(** ** Vocabulary of the annotator's proofs *)

(** [d.get(key)] *)
Fixpoint dict_get {V} (key : string) (d : dict V) : option V :=
  match d with
  | [] => None
  | (k, v) :: rest => if decide (k = key) then Some v else dict_get key rest
  end.

(** The Findings that share a dictionary key. *)
Definition key_group (key : string) (issues : list ContainerLimitIssue)
  : list ContainerLimitIssue :=
  filter (fun issue => pod_key issue = key) issues.

(** The dictionary entry the grouping loop ends with under [key]: the names
    of the first Finding with that key, and the OR of the flags of all of
    them. *)
Definition group_info (key : string) (issues : list ContainerLimitIssue) : option PodInfo :=
  match key_group key issues with
  | [] => None
  | first :: _ =>
      Some (mkInfo (namespace first) (pod_name first)
                   (existsb missing_cpu_limit (key_group key issues))
                   (existsb missing_memory_limit (key_group key issues)))
  end.

(** The entry a Finding creates when its key is new. *)
Definition fresh_info (issue : ContainerLimitIssue) : PodInfo :=
  mkInfo (namespace issue) (pod_name issue) false false.

(** The two flag updates of the grouping loop. *)
Definition apply_issue (issue : ContainerLimitIssue) (info : PodInfo) : PodInfo :=
  let info := if missing_cpu_limit issue then set_missing_cpu info else info in
  if missing_memory_limit issue then set_missing_memory info else info.

(** The patch call [annotate_pod] makes for a dictionary entry, if any. *)
Definition call_of (info : PodInfo) : option PatchCall :=
  match annotation_value (info_missing_cpu info) (info_missing_memory info) with
  | Some value => Some (mkCall (info_pod_name info) (info_namespace info) {[ "warning" := value ]})
  | None => None
  end.

(** The pod a dictionary entry stands for. *)
Definition info_pod (info : PodInfo) : string * string :=
  (info_namespace info, info_pod_name info).

(** The key of a pod. *)
Definition key_of (p : string * string) : string := fst p +:+ "/" +:+ snd p.

(** ** Sample data *)

(** The pod [ns-a/web-1] of the specification's scenario: container [app]
    with a CPU limit only, container [sidecar] with no limits, and a third
    container whose two limits are ["0"] and the empty string. *)
Definition app : V1.Container :=
  V1.mkContainer "app" (Some (V1.mkResources (Some {[ "cpu" := "500m" ]}))).

Definition sidecar : V1.Container :=
  V1.mkContainer "sidecar" None.

Definition zero_limits : gmap string string :=
  <[ "cpu" := "0" ]> {[ "memory" := "" ]}.

Definition capped : V1.Container :=
  V1.mkContainer "capped" (Some (V1.mkResources (Some zero_limits))).

Definition web_1 : V1.Pod :=
  V1.mkPod (V1.mkMeta "ns-a" "web-1") (V1.mkSpec [app; capped; sidecar]).

Definition app_issue : ContainerLimitIssue := mkIssue "ns-a" "web-1" "app" false true.
Definition sidecar_issue : ContainerLimitIssue := mkIssue "ns-a" "web-1" "sidecar" true true.

(** A cluster that keeps the ["warning"] annotation of every pod, keyed by
    (namespace, name).  The pods in [gone] have been deleted: patching one of
    them raises [ApiException]. *)
Definition lab_api (gone : list (string * string))
  : CoreV1Api (gmap (string * string) string) :=
  mkApi _
    (fun _ _ => ListOk [])
    (fun _ => ListOk [])
    (fun k name ns body =>
       if bool_decide ((ns, name) ∈ gone) then (PatchApiException, k)
       else match body !! "warning" with
            | Some v => (PatchOk, <[ (ns, name) := v ]> k)
            | None => (PatchOk, k)
            end).

Definition lab_checker (gone : list (string * string))
  : KubernetesPodChecker (gmap (string * string) string) :=
  mkChecker (Some (lab_api gone)).

Definition lab_world : World (gmap (string * string) string) := mkWorld ∅ [].

(** A second pod, and Findings of two pods. *)
Definition db_issue : ContainerLimitIssue := mkIssue "ns-b" "db-0" "postgres" true false.

Definition two_pods : list ContainerLimitIssue := [app_issue; db_issue; sidecar_issue].

(** Two Findings of two different pods whose keys coincide. *)
Definition slash_issues : list ContainerLimitIssue :=
  [ mkIssue "a/b" "c" "x" true false; mkIssue "a" "b/c" "y" false true ].

(** Credentials with which the in-cluster loader raises an unexpected error
    while the kubeconfig would load. *)
Definition broken_incluster : Config (gmap (string * string) string) :=
  mkConfig LoadException (LoadOk (lab_api [])).

(** A cluster whose listing calls raise [ApiException]. *)
Definition unlistable_api : CoreV1Api (gmap (string * string) string) :=
  mkApi _
    (fun _ _ => ListApiException)
    (fun _ => ListApiException)
    (fun k _ _ _ => (PatchOk, k)).

Definition unlistable : Config (gmap (string * string) string) :=
  mkConfig (LoadOk unlistable_api) LoadConfigException.

Definition annotate_args : Args := mkArgs "table" None true.

(** ** Vocabulary of the further properties *)

(** The distinct elements of a list, each at the place of its first
    occurrence. *)
Fixpoint first_occurrences {A} `{EqDecision A} (l : list A) : list A :=
  match l with
  | [] => []
  | x :: rest => x :: filter (fun y => y <> x) (first_occurrences rest)
  end.

(** The three values the ["warning"] annotation can take. *)
Definition warning_labels : list string :=
  ["no-limits"; "no-cpu-limit"; "no-memory-limit"].

(** A cluster that lists the pods [items] and accepts every patch. *)
Definition stocked_api (items : list V1.Pod) : CoreV1Api (gmap (string * string) string) :=
  mkApi _
    (fun _ _ => ListOk items)
    (fun _ => ListOk items)
    (fun k _ _ _ => (PatchOk, k)).

Definition stocked (items : list V1.Pod) : Config (gmap (string * string) string) :=
  mkConfig LoadConfigException (LoadOk (stocked_api items)).

(** ** Reading the reports back *)

(** No double quote in a name. *)
Fixpoint quote_free (s : string) : bool :=
  match s with
  | EmptyString => true
  | String c rest => negb (nat_of_ascii c =? 34)%nat && quote_free rest
  end.

(** A character of the printable ASCII range, from space to tilde. *)
Definition printable (c : ascii) : bool :=
  (32 <=? nat_of_ascii c)%nat && (nat_of_ascii c <=? 126)%nat.

(** [expect prefix s]: what follows [prefix] in [s], if [s] starts with it. *)
Fixpoint expect (prefix s : string) : option string :=
  match prefix with
  | EmptyString => Some s
  | String p prefix' =>
      match s with
      | EmptyString => None
      | String c s' => if Ascii.eqb p c then expect prefix' s' else None
      end
  end.

(** A text of printable ASCII characters and line breaks only. *)
Fixpoint plain (s : string) : bool :=
  match s with
  | EmptyString => true
  | String c rest => (printable c || (nat_of_ascii c =? 10)%nat) && plain rest
  end.

(** No character with code [n] in a text. *)
Fixpoint lacks_char (n : nat) (s : string) : bool :=
  match s with
  | EmptyString => true
  | String c rest => negb (nat_of_ascii c =? n)%nat && lacks_char n rest
  end.

(** A name without space, line break or double quote; Kubernetes names
    contain none of them. *)
Definition plain_name (s : string) : bool :=
  lacks_char 32 s && lacks_char 10 s && lacks_char 34 s.

Definition plain_issue (issue : ContainerLimitIssue) : bool :=
  plain_name (namespace issue) && plain_name (pod_name issue) &&
  plain_name (container_name issue).

(** [s.split("\n")]: the lines of a text. *)
Fixpoint split_lines (s : string) : list string :=
  match s with
  | EmptyString => [EmptyString]
  | String c rest =>
      if (nat_of_ascii c =? 10)%nat then EmptyString :: split_lines rest
      else
        match split_lines rest with
        | line :: lines => String c line :: lines
        | [] => [String c EmptyString]
        end
  end.

Module csv_reader.

(** The text up to the next double quote, and what follows that quote. *)
Fixpoint read_until_quote (s : string) : option (string * string) :=
  match s with
  | EmptyString => None
  | String c rest =>
      if (nat_of_ascii c =? 34)%nat then Some (EmptyString, rest)
      else
        match read_until_quote rest with
        | Some (field, tail) => Some (String c field, tail)
        | None => None
        end
  end.

(** One field between double quotes. *)
Definition read_quoted (s : string) : option (string * string) :=
  match expect dq s with
  | Some rest => read_until_quote rest
  | None => None
  end.

(** [n] quoted fields separated by commas, and nothing after them. *)
Fixpoint read_fields (n : nat) (s : string) : option (list string) :=
  match n with
  | 0 => None
  | S n' =>
      match read_quoted s with
      | Some (field, tail) =>
          match n' with
          | 0 => if bool_decide (tail = "") then Some [field] else None
          | S _ =>
              match expect "," tail with
              | Some tail' =>
                  match read_fields n' tail' with
                  | Some fields => Some (field :: fields)
                  | None => None
                  end
              | None => None
              end
          end
      | None => None
      end
  end.

(** The five values of a data line of the delimited report. *)
Definition read_line (s : string) : option (string * string * string * bool * bool) :=
  match read_fields 5 s with
  | Some row => row_values csv_bool row
  | None => None
  end.

(** The values of each of the data lines. *)
Fixpoint read_lines (lines : list string)
  : option (list (string * string * string * bool * bool)) :=
  match lines with
  | [] => Some []
  | line :: rest =>
      match read_line line, read_lines rest with
      | Some values, Some others => Some (values :: others)
      | _, _ => None
      end
  end.

(** The values of a delimited report: the header line, then one data line
    per Finding. *)
Definition read (s : string) : option (list (string * string * string * bool * bool)) :=
  match split_lines s with
  | header :: lines =>
      if bool_decide
           (header = "NAMESPACE,POD_NAME,CONTAINER_NAME,MISSING_CPU_LIMIT,MISSING_MEMORY_LIMIT")
      then read_lines lines
      else None
  | [] => None
  end.

End csv_reader.

Module table_reader.

(** The text up to the first space, and what follows from that space on. *)
Fixpoint read_word (s : string) : string * string :=
  match s with
  | EmptyString => (EmptyString, EmptyString)
  | String c rest =>
      if (nat_of_ascii c =? 32)%nat then (EmptyString, s)
      else let '(word, tail) := read_word rest in (String c word, tail)
  end.

Fixpoint skip_spaces (s : string) : string :=
  match s with
  | EmptyString => EmptyString
  | String c rest => if (nat_of_ascii c =? 32)%nat then skip_spaces rest else s
  end.

(** One cell of a row: a space, the value, the padding and the bar that
    closes the cell. *)
Definition read_cell (s : string) : option (string * string) :=
  match expect " " s with
  | Some rest =>
      let '(word, tail) := read_word rest in
      match expect "|" (skip_spaces tail) with
      | Some tail' => Some (word, tail')
      | None => None
      end
  | None => None
  end.

(** [n] cells, and nothing after them. *)
Fixpoint read_cells (n : nat) (s : string) : option (list string) :=
  match n with
  | 0 => if bool_decide (s = "") then Some [] else None
  | S n' =>
      match read_cell s with
      | Some (word, rest) =>
          match read_cells n' rest with
          | Some words => Some (word :: words)
          | None => None
          end
      | None => None
      end
  end.

(** The five values of a body row of the table. *)
Definition read_row (line : string) : option (string * string * string * bool * bool) :=
  match expect "|" line with
  | Some rest =>
      match read_cells 5 rest with
      | Some row => row_values table_bool row
      | None => None
      end
  | None => None
  end.

(** The values of the body rows: every line but the last, which is the
    closing border. *)
Fixpoint read_rows (lines : list string)
  : option (list (string * string * string * bool * bool)) :=
  match lines with
  | [] => None
  | line :: rest =>
      match rest with
      | [] => Some []
      | _ :: _ =>
          match read_row line, read_rows rest with
          | Some values, Some others => Some (values :: others)
          | _, _ => None
          end
      end
  end.

(** The values of a tabular report: none for the sentence that stands for
    the empty table; otherwise the body rows that follow the border, the
    header and the second border. *)
Definition read (s : string) : option (list (string * string * string * bool * bool)) :=
  if bool_decide (s = "No containers with missing resource limits found.") then Some []
  else
    match split_lines s with
    | _ :: _ :: _ :: body => read_rows body
    | _ => None
    end.

End table_reader.

Module json_reader.

(** The string of a literal whose opening quote has been read, and what
    follows the closing quote. *)
Fixpoint read_string_body (s : string) : option (string * string) :=
  match s with
  | EmptyString => None
  | String c rest =>
      if (nat_of_ascii c =? 92)%nat then
        match rest with
        | EmptyString => None
        | String e rest' =>
            if (nat_of_ascii e =? 117)%nat then
              match rest' with
              | String "0" (String "0" (String h (String l rest''))) =>
                  match json.hex_value h, json.hex_value l, read_string_body rest'' with
                  | Some x, Some y, Some (str, tail) =>
                      Some (String (ascii_of_nat (16 * x + y)) str, tail)
                  | _, _, _ => None
                  end
              | _ => None
              end
            else
              match json.unescape_short e, read_string_body rest' with
              | Some c', Some (str, tail) => Some (String c' str, tail)
              | _, _ => None
              end
        end
      else if (nat_of_ascii c =? 34)%nat then Some (EmptyString, rest)
      else
        match read_string_body rest with
        | Some (str, tail) => Some (String c str, tail)
        | None => None
        end
  end.

Definition read_string (s : string) : option (string * string) :=
  match expect dq s with
  | Some rest => read_string_body rest
  | None => None
  end.

Definition read_bool (s : string) : option (bool * string) :=
  match expect "true" s with
  | Some rest => Some (true, rest)
  | None =>
      match expect "false" s with
      | Some rest => Some (false, rest)
      | None => None
      end
  end.

(** The text before the value of a field of a record: the line break, the
    indentation, the quoted field name and the colon. *)
Definition field_start (name : string) : string :=
  nl +:+ "    " +:+ dq +:+ name +:+ dq +:+ ": ".

(** One record of the structured report, and what follows it. *)
Definition read_record (s : string) : option (ContainerLimitIssue * string) :=
  match expect ("{" +:+ field_start "namespace") s with
  | None => None
  | Some s =>
  match read_string s with
  | None => None
  | Some (ns, s) =>
  match expect ("," +:+ field_start "pod_name") s with
  | None => None
  | Some s =>
  match read_string s with
  | None => None
  | Some (pod, s) =>
  match expect ("," +:+ field_start "container_name") s with
  | None => None
  | Some s =>
  match read_string s with
  | None => None
  | Some (container, s) =>
  match expect ("," +:+ field_start "missing_cpu_limit") s with
  | None => None
  | Some s =>
  match read_bool s with
  | None => None
  | Some (cpu, s) =>
  match expect ("," +:+ field_start "missing_memory_limit") s with
  | None => None
  | Some s =>
  match read_bool s with
  | None => None
  | Some (memory, s) =>
  match expect (nl +:+ "  }") s with
  | None => None
  | Some s => Some (mkIssue ns pod container cpu memory, s)
  end end end end end end end end end end end.

(** At most [fuel] records separated by a comma and a line break, up to the
    closing bracket. *)
Fixpoint read_records (fuel : nat) (s : string) : option (list ContainerLimitIssue) :=
  match fuel with
  | 0 => None
  | S fuel' =>
      match read_record s with
      | None => None
      | Some (issue, rest) =>
          match expect ("," +:+ nl +:+ "  ") rest with
          | Some rest' =>
              match read_records fuel' rest' with
              | Some issues => Some (issue :: issues)
              | None => None
              end
          | None =>
              match expect (nl +:+ "]") rest with
              | Some EmptyString => Some [issue]
              | _ => None
              end
          end
      end
  end.

(** The Findings of a structured report. *)
Definition loads (s : string) : option (list ContainerLimitIssue) :=
  if bool_decide (s = "[]") then Some []
  else
    match expect ("[" +:+ nl +:+ "  ") s with
    | Some rest => read_records (String.length s) rest
    | None => None
    end.

End json_reader.

(** Two Findings with different names and the same delimited line: the
    double quote and the comma are in the namespace of the first and in the
    pod name of the second. *)
Definition quoted_namespace : list ContainerLimitIssue :=
  [ mkIssue ("a" +:+ dq +:+ "," +:+ dq +:+ "b") "c" "x" true false ].

Definition quoted_pod_name : list ContainerLimitIssue :=
  [ mkIssue "a" ("b" +:+ dq +:+ "," +:+ dq +:+ "c") "x" true false ].

(** ** Evaluator: the loops compute a filtering map over the iteration order *)

Lemma check_container_finding ns pn acc container pod :
  ns = V1.meta_namespace (V1.metadata pod) ->
  pn = V1.meta_name (V1.metadata pod) ->
  check_container ns pn acc container =
    acc ++ option_list (finding_of (pod, container)).
Proof.
  intros -> ->. unfold check_container, finding_of.
  destruct (limit_missing _ "cpu" || limit_missing _ "memory"); simpl.
  - reflexivity.
  - now rewrite app_nil_r.
Qed.

Lemma inner_loop_omap pod cs acc :
  fold_left (check_container (V1.meta_namespace (V1.metadata pod))
                             (V1.meta_name (V1.metadata pod))) cs acc =
    acc ++ omap finding_of (map (pair pod) cs).
Proof.
  revert acc. induction cs as [|c cs IH]; intros acc; cbn [fold_left map].
  - now rewrite app_nil_r.
  - rewrite IH, (check_container_finding _ _ _ _ pod) by reflexivity.
    rewrite <- app_assoc. f_equal.
    cbn [omap list_omap]. destruct (finding_of (pod, c)); reflexivity.
Qed.

Lemma outer_loop_omap items acc :
  fold_left check_pod items acc = acc ++ omap finding_of (snapshot_order items).
Proof.
  revert acc. induction items as [|pod items IH]; intros acc;
    cbn [fold_left snapshot_order flat_map].
  - now rewrite app_nil_r.
  - rewrite IH. unfold check_pod. rewrite inner_loop_omap.
    rewrite omap_app, app_assoc. reflexivity.
Qed.

Lemma evaluate_pods_omap items :
  evaluate_pods items = omap finding_of (snapshot_order items).
Proof. unfold evaluate_pods. now rewrite outer_loop_omap. Qed.

(** ** Evaluator: the properties of the specification *)

Lemma container_limits_None container :
  container_limits container = None <-> limits_absent container.
Proof.
  unfold container_limits, limits_absent.
  destruct (V1.resources container) as [resources|]; [|split; auto].
  split.
  - intros H. right. exists resources. split; [reflexivity | exact H].
  - intros [H | (r & [= <-] & H)]; [discriminate | exact H].
Qed.

Lemma container_limits_Some container d key :
  container_limits container = Some d ->
  key_absent container key <-> key ∉ dom d.
Proof.
  unfold container_limits, key_absent.
  destruct (V1.resources container) as [resources|]; [|discriminate].
  intros Hd. split.
  - intros (r & d' & [= <-] & Hd' & H). congruence.
  - intros H. exists resources, d. repeat split; assumption.
Qed.

Lemma limit_missing_lacks container key :
  limit_missing (container_limits container) key = true <-> lacks_limit container key.
Proof.
  unfold limit_missing, lacks_limit.
  destruct (container_limits container) as [d|] eqn:Hd.
  - rewrite bool_decide_eq_true, <- not_elem_of_dom.
    rewrite (container_limits_Some _ _ key Hd). split; [auto|].
    intros [H | H]; [|exact H].
    apply container_limits_None in H. congruence.
  - split; [|reflexivity]. intros _. left. apply container_limits_None, Hd.
Qed.

Lemma finding_of_flags pod container f :
  finding_of (pod, container) = Some f ->
  f = mkIssue (V1.meta_namespace (V1.metadata pod)) (V1.meta_name (V1.metadata pod))
              (V1.name container)
              (limit_missing (container_limits container) "cpu")
              (limit_missing (container_limits container) "memory").
Proof.
  unfold finding_of.
  destruct (limit_missing _ "cpu" || limit_missing _ "memory"); congruence.
Qed.

(** Two positions of a filtered list come from two positions of the list it
    was filtered from, in the same order. *)
Lemma omap_lookup_order {A B} (f : A -> option B) (l : list A) i j x y :
  i < j -> omap f l !! i = Some x -> omap f l !! j = Some y ->
  exists a b u v, a < b /\ l !! a = Some u /\ l !! b = Some v /\
                  f u = Some x /\ f v = Some y.
Proof.
  revert i j. induction l as [|h l IH]; intros i j Hij Hi Hj.
  - discriminate.
  - cbn [omap list_omap] in Hi, Hj. destruct (f h) as [z|] eqn:Hz.
    + destruct j as [|j]; [lia|]. destruct i as [|i].
      * cbn in Hi, Hj. injection Hi as ->.
        apply list_elem_of_lookup_2, list_elem_of_omap in Hj.
        destruct Hj as (v & Hv & Hfv).
        apply list_elem_of_lookup_1 in Hv. destruct Hv as (b & Hb).
        exists 0, (S b), h, v. repeat split; [lia | assumption..].
      * cbn in Hi, Hj.
        destruct (IH i j ltac:(lia) Hi Hj) as (a & b & u & v & Hab & Ha & Hb & Hu & Hv).
        exists (S a), (S b), u, v. repeat split; [lia | assumption..].
    + destruct (IH i j Hij Hi Hj) as (a & b & u & v & Hab & Ha & Hb & Hu & Hv).
      exists (S a), (S b), u, v. repeat split; [lia | assumption..].
Qed.

Lemma finding_of_Some pod container f :
  finding_of (pod, container) = Some f ->
  (lacks_limit container "cpu" \/ lacks_limit container "memory") /\
  finding_for pod container f.
Proof.
  intros Hf. pose proof (finding_of_flags _ _ _ Hf) as ->.
  unfold finding_of in Hf.
  destruct (limit_missing _ "cpu" || limit_missing _ "memory") eqn:Hflag;
    [|discriminate].
  split.
  - apply orb_true_iff in Hflag. rewrite <- !limit_missing_lacks. exact Hflag.
  - unfold finding_for. cbn. repeat split; try apply limit_missing_lacks.
Qed.

Lemma finding_of_None pod container :
  finding_of (pod, container) = None ->
  ~ (lacks_limit container "cpu" \/ lacks_limit container "memory").
Proof.
  unfold finding_of.
  destruct (limit_missing _ "cpu" || limit_missing _ "memory") eqn:Hflag;
    [discriminate|].
  intros _. rewrite <- !limit_missing_lacks, <- orb_true_iff, Hflag. discriminate.
Qed.

Lemma finding_of_lacks pod container :
  lacks_limit container "cpu" \/ lacks_limit container "memory" ->
  exists f, finding_of (pod, container) = Some f.
Proof.
  intros Hlacks. destruct (finding_of (pod, container)) as [f|] eqn:Hf; [eauto|].
  apply finding_of_None in Hf. contradiction.
Qed.

Lemma emits_omap pairs : emits pairs (omap finding_of pairs).
Proof.
  induction pairs as [|[pod container] pairs IH]; [constructor|].
  cbn [omap list_omap]. destruct (finding_of (pod, container)) as [f|] eqn:Hf.
  - apply finding_of_Some in Hf. destruct Hf as [Hlacks Hfor].
    now apply emits_keep.
  - apply finding_of_None in Hf. now apply emits_skip.
Qed.

Lemma both_limits_present name (d : gmap string string) cpu_value memory_value :
  d !! "cpu" = Some cpu_value -> d !! "memory" = Some memory_value ->
  ~ (lacks_limit (container_with_limits name d) "cpu" \/
     lacks_limit (container_with_limits name d) "memory").
Proof.
  intros Hcpu Hmemory. unfold lacks_limit, limits_absent, key_absent. cbn.
  intros [[[H | (r & [= <-] & H)] | (r & d' & [= <-] & [= <-] & H)]
         |[[H | (r & [= <-] & H)] | (r & d' & [= <-] & [= <-] & H)]];
    try discriminate; apply H, elem_of_dom; eauto.
Qed.

Lemma check_container_lacks ns pn acc container :
  lacks_limit container "cpu" \/ lacks_limit container "memory" ->
  exists f,
    check_container ns pn acc container = acc ++ [f] /\
    namespace f = ns /\ pod_name f = pn /\ container_name f = V1.name container /\
    (missing_cpu_limit f = true <-> lacks_limit container "cpu") /\
    (missing_memory_limit f = true <-> lacks_limit container "memory").
Proof.
  intros Hlacks. rewrite <- !limit_missing_lacks, <- orb_true_iff in Hlacks.
  unfold check_container. rewrite Hlacks.
  eexists. split; [reflexivity|]. cbn. repeat split; apply limit_missing_lacks.
Qed.

Lemma check_container_has_both ns pn acc container :
  ~ (lacks_limit container "cpu" \/ lacks_limit container "memory") ->
  check_container ns pn acc container = acc.
Proof.
  intros Hnot. unfold check_container.
  destruct (limit_missing _ "cpu" || limit_missing _ "memory") eqn:Hflag;
    [|reflexivity].
  exfalso. apply Hnot. rewrite <- !limit_missing_lacks. apply orb_true_iff, Hflag.
Qed.

(** C1: the evaluator emits a Finding for a container exactly when the
    container lacks the CPU limit or the memory limit, that is when
    [missing_cpu_limit] or [missing_memory_limit] is true: going through
    the snapshot's (pod, container) pairs in order, every container whose
    limits mapping is absent or lacks one of the two keys gives its
    Finding, every other container gives none, and the Findings so obtained
    are the output.  A container whose limits mapping has both the ["cpu"]
    and the ["memory"] key lacks neither, whatever the two values are: a
    pod of such a container alone gives no Finding. *)
Theorem C1_finding_iff_missing_limit (items : list V1.Pod) :
  emits (snapshot_order items) (evaluate_pods items) /\
  (forall meta name (d : gmap string string) (cpu_value memory_value : string),
     d !! "cpu" = Some cpu_value -> d !! "memory" = Some memory_value ->
     ~ (lacks_limit (container_with_limits name d) "cpu" \/
        lacks_limit (container_with_limits name d) "memory") /\
     evaluate_pods [V1.mkPod meta (V1.mkSpec [container_with_limits name d])] = []).
Proof.
  split.
  - rewrite evaluate_pods_omap. apply emits_omap.
  - intros meta name d cv mv Hcpu Hmemory.
    pose proof (both_limits_present name d cv mv Hcpu Hmemory) as Hboth.
    split; [exact Hboth|].
    unfold evaluate_pods, check_pod. cbn [fold_left V1.containers V1.spec].
    apply check_container_has_both, Hboth.
Qed.

(** C2: for every container of the snapshot the evaluator computes
    [missing_cpu_limit] as "the limits mapping is absent or has no ["cpu"]
    key" and [missing_memory_limit] likewise for ["memory"].  Every
    container of the snapshot that lacks a limit has a Finding in the
    output with both flags so computed, and every Finding of the output is
    that of a container of the snapshot.  The body of the loop appends,
    for a container lacking a limit, one Finding with both flags right
    (also when one alone would do), and nothing otherwise.  Only the
    presence of the keys counts: two mappings with the same keys are
    treated alike.  A container with no limits mapping gets both flags
    true; one whose mapping holds only ["cpu"] gets [missing_cpu_limit =
    false] and [missing_memory_limit = true]. *)
Theorem C2_flags_by_key_presence (items : list V1.Pod) :
  (forall pod container,
     (pod, container) ∈ snapshot_order items ->
     lacks_limit container "cpu" \/ lacks_limit container "memory" ->
     exists f, f ∈ evaluate_pods items /\ finding_for pod container f) /\
  (forall f, f ∈ evaluate_pods items ->
     exists pod container,
       (pod, container) ∈ snapshot_order items /\ finding_for pod container f) /\
  (forall ns pn acc container,
     (lacks_limit container "cpu" \/ lacks_limit container "memory" ->
      exists f,
        check_container ns pn acc container = acc ++ [f] /\
        namespace f = ns /\ pod_name f = pn /\ container_name f = V1.name container /\
        (missing_cpu_limit f = true <-> lacks_limit container "cpu") /\
        (missing_memory_limit f = true <-> lacks_limit container "memory")) /\
     (~ (lacks_limit container "cpu" \/ lacks_limit container "memory") ->
      check_container ns pn acc container = acc)) /\
  (forall ns pn acc name (d1 d2 : gmap string string),
     dom d1 = dom d2 ->
     check_container ns pn acc (container_with_limits name d1) =
       check_container ns pn acc (container_with_limits name d2)) /\
  (forall ns pn acc container,
     limits_absent container ->
     check_container ns pn acc container =
       acc ++ [mkIssue ns pn (V1.name container) true true]) /\
  (forall ns pn acc name (d : gmap string string),
     dom d = {[ "cpu" ]} ->
     check_container ns pn acc (container_with_limits name d) =
       acc ++ [mkIssue ns pn name false true]).
Proof.
  split; [|split; [|split; [|split; [|split]]]].
  - intros pod container Hin Hlacks.
    destruct (finding_of_lacks pod container Hlacks) as [f Hf].
    exists f. split; [|apply (finding_of_Some _ _ _ Hf)].
    rewrite evaluate_pods_omap. apply list_elem_of_omap. eauto.
  - intros f Hf. rewrite evaluate_pods_omap in Hf.
    apply list_elem_of_omap in Hf. destruct Hf as ([pod container] & Hin & Hf).
    exists pod, container. split; [exact Hin | apply (finding_of_Some _ _ _ Hf)].
  - intros ns pn acc container. split.
    + apply check_container_lacks.
    + apply check_container_has_both.
  - intros ns pn acc name d1 d2 Hdom. unfold check_container. cbn.
    assert (Hsame : forall key,
      bool_decide (d1 !! key = None) = bool_decide (d2 !! key = None)).
    { intros key. apply bool_decide_ext.
      rewrite <- !not_elem_of_dom, Hdom. reflexivity. }
    rewrite !Hsame. reflexivity.
  - intros ns pn acc container Habsent.
    apply container_limits_None in Habsent.
    unfold check_container. rewrite Habsent. reflexivity.
  - intros ns pn acc name d Hdom. unfold check_container. cbn.
    rewrite bool_decide_eq_false_2, bool_decide_eq_true_2; [reflexivity | |].
    + rewrite <- not_elem_of_dom, Hdom, elem_of_singleton. discriminate.
    + rewrite <- not_elem_of_dom, Hdom. intros H. apply H, elem_of_singleton.
      reflexivity.
Qed.

(** C3: the Findings keep the snapshot's nested iteration order.  If [f1]
    stands before [f2] in the output, then [f1] is the Finding of a
    (pod, container) pair that comes strictly before the pair [f2] is the
    Finding of, hence no later, in the order pods and their containers are
    iterated in. *)
Theorem C3_findings_keep_snapshot_order (items : list V1.Pod) (i j : nat)
    (f1 f2 : ContainerLimitIssue) :
  i < j ->
  evaluate_pods items !! i = Some f1 ->
  evaluate_pods items !! j = Some f2 ->
  exists a b pc1 pc2,
    a < b /\
    snapshot_order items !! a = Some pc1 /\
    snapshot_order items !! b = Some pc2 /\
    finding_of pc1 = Some f1 /\ finding_of pc2 = Some f2.
Proof.
  rewrite evaluate_pods_omap. apply omap_lookup_order.
Qed.

Lemma C1_finding_iff_missing_limit_witness :
  ~ (lacks_limit (container_with_limits "capped" zero_limits) "cpu" \/
     lacks_limit (container_with_limits "capped" zero_limits) "memory") /\
  evaluate_pods [V1.mkPod (V1.mkMeta "ns-a" "web-1")
                   (V1.mkSpec [container_with_limits "capped" zero_limits])] = [].
Proof.
  destruct (C1_finding_iff_missing_limit [web_1]) as (_ & H).
  apply (H (V1.mkMeta "ns-a" "web-1") "capped" zero_limits "0" ""); reflexivity.
Defined.

Lemma C2_flags_by_key_presence_witness :
  (exists f, f ∈ evaluate_pods [web_1] /\ finding_for web_1 sidecar f) /\
  check_container "ns-a" "web-1" [] app = [app_issue] /\
  check_container "ns-a" "web-1" [app_issue] sidecar = [app_issue; sidecar_issue].
Proof.
  destruct (C2_flags_by_key_presence [web_1]) as (Hall & _ & _ & _ & Hnone & Hcpu).
  split; [|split].
  - apply (Hall web_1 sidecar).
    + unfold snapshot_order, web_1. cbn.
      apply list_elem_of_further, list_elem_of_further, list_elem_of_here.
    + left. left. left. reflexivity.
  - apply (Hcpu "ns-a" "web-1" [] "app" {[ "cpu" := "500m" ]}).
    apply dom_singleton_L.
  - apply (Hnone "ns-a" "web-1" [app_issue] sidecar). left. reflexivity.
Defined.

Lemma C3_findings_keep_snapshot_order_witness :
  exists a b pc1 pc2,
    a < b /\
    snapshot_order [web_1] !! a = Some pc1 /\
    snapshot_order [web_1] !! b = Some pc2 /\
    finding_of pc1 = Some app_issue /\ finding_of pc2 = Some sidecar_issue.
Proof.
  apply (C3_findings_keep_snapshot_order [web_1] 0 1 app_issue sidecar_issue).
  - lia.
  - vm_compute. reflexivity.
  - vm_compute. reflexivity.
Defined.

(** ** Dictionaries *)

Section Dict.

Context {V : Type}.
Implicit Types (d : dict V) (k : string).

Lemma dict_contains_keys k d : dict_contains k d = true <-> k ∈ d.*1.
Proof.
  unfold dict_contains. induction d as [|[k' v] d IH]; cbn.
  - split; [discriminate | intros H; inversion H].
  - rewrite orb_true_iff, IH, bool_decide_eq_true, elem_of_cons. cbn.
    split; intros [H|H]; auto.
Qed.

Lemma dict_contains_false k d : dict_contains k d = false <-> k ∉ d.*1.
Proof.
  rewrite <- dict_contains_keys. destruct (dict_contains k d); split;
    congruence.
Qed.

Lemma dict_update_keys k f d : (dict_update k f d).*1 = d.*1.
Proof.
  unfold dict_update. induction d as [|[k' v] d IH]; cbn; [reflexivity|].
  f_equal; [|exact IH]. case_bool_decide; reflexivity.
Qed.

Lemma dict_get_update k k' f d :
  dict_get k (dict_update k' f d) =
    if decide (k = k') then f <$> dict_get k d else dict_get k d.
Proof.
  unfold dict_update. induction d as [|[k0 v] d IH]; cbn.
  - destruct (decide (k = k')); reflexivity.
  - case_bool_decide as Hk0; cbn in *; subst;
      repeat case_decide; subst; cbn; try congruence.
Qed.

Lemma dict_get_snoc k k' v d :
  dict_get k (d ++ [(k', v)]) =
    match dict_get k d with
    | Some x => Some x
    | None => if decide (k' = k) then Some v else None
    end.
Proof.
  induction d as [|[k0 v0] d IH]; cbn; [reflexivity|].
  destruct (decide (k0 = k)); [reflexivity | exact IH].
Qed.

Lemma dict_get_None k d : dict_get k d = None <-> k ∉ d.*1.
Proof.
  induction d as [|[k0 v0] d IH]; cbn.
  - split; [intros _ H; inversion H | reflexivity].
  - rewrite not_elem_of_cons. destruct (decide (k0 = k)); subst.
    + split; [discriminate | intros [H _]; congruence].
    + rewrite IH. split; [intros H; split; congruence | intros [_ H]; exact H].
Qed.

Lemma dict_get_elem k v d : NoDup d.*1 -> (k, v) ∈ d <-> dict_get k d = Some v.
Proof.
  induction d as [|[k0 v0] d IH]; cbn; intros Hnd.
  - split; [intros H; inversion H | discriminate].
  - apply NoDup_cons in Hnd. destruct Hnd as [Hk0 Hnd].
    rewrite elem_of_cons. destruct (decide (k0 = k)); subst.
    + split.
      * intros [H | H]; [congruence|].
        exfalso. apply Hk0. apply list_elem_of_fmap. exists (k, v). auto.
      * intros H. left. congruence.
    + rewrite <- (IH Hnd). split; [intros [H|H]; [congruence | exact H] | auto].
Qed.

End Dict.

(** ** The grouping loop *)

Lemma group_issue_keys d x :
  (group_issue d x).*1 =
    if dict_contains (pod_key x) d then d.*1 else d.*1 ++ [pod_key x].
Proof.
  unfold group_issue.
  destruct (missing_cpu_limit x), (missing_memory_limit x);
    rewrite ?dict_update_keys;
    destruct (dict_contains (pod_key x) d); cbn [negb];
    rewrite ?fmap_app; reflexivity.
Qed.

Lemma group_issue_get d x k :
  dict_get k (group_issue d x) =
    if decide (k = pod_key x)
    then Some (apply_issue x (default (fresh_info x) (dict_get k d)))
    else dict_get k d.
Proof.
  unfold group_issue, apply_issue, fresh_info.
  destruct (dict_contains (pod_key x) d) eqn:Hc; cbn [negb].
  - assert (Hsome : k = pod_key x -> is_Some (dict_get k d)).
    { intros ->. apply dict_contains_keys in Hc.
      destruct (dict_get (pod_key x) d) eqn:Hg; [eauto|].
      apply dict_get_None in Hg. contradiction. }
    destruct (missing_cpu_limit x), (missing_memory_limit x);
      rewrite ?dict_get_update;
      destruct (decide (k = pod_key x)) as [Hk|Hk]; try reflexivity;
      destruct (Hsome Hk) as [info ->]; reflexivity.
  - assert (Hnone : k = pod_key x -> dict_get k d = None).
    { intros ->. apply dict_get_None, dict_contains_false, Hc. }
    destruct (missing_cpu_limit x), (missing_memory_limit x);
      rewrite ?dict_get_update, dict_get_snoc;
      destruct (decide (k = pod_key x)) as [Hk|Hk];
      try (rewrite (Hnone Hk); subst k; rewrite decide_True by reflexivity;
           reflexivity);
      destruct (dict_get k d); try reflexivity;
      rewrite decide_False by congruence; reflexivity.
Qed.

Lemma group_issues_snoc l x :
  group_issues (l ++ [x]) = group_issue (group_issues l) x.
Proof. unfold group_issues. now rewrite fold_left_app. Qed.

Lemma group_issues_keys_elem l k :
  k ∈ (group_issues l).*1 <-> k ∈ pod_key <$> l.
Proof.
  induction l as [|x l IH] using rev_ind.
  - reflexivity.
  - rewrite group_issues_snoc, group_issue_keys, fmap_app, elem_of_app.
    cbn [fmap list_fmap]. rewrite list_elem_of_singleton, <- IH.
    destruct (dict_contains (pod_key x) (group_issues l)) eqn:Hc.
    + apply dict_contains_keys in Hc. split; [auto | intros [H | ->]; assumption].
    + rewrite elem_of_app, list_elem_of_singleton. reflexivity.
Qed.

Lemma group_issues_keys_NoDup l : NoDup (group_issues l).*1.
Proof.
  induction l as [|x l IH] using rev_ind.
  - constructor.
  - rewrite group_issues_snoc, group_issue_keys.
    destruct (dict_contains (pod_key x) (group_issues l)) eqn:Hc; [exact IH|].
    apply dict_contains_false in Hc.
    apply NoDup_app. split; [exact IH|]. split.
    + intros k Hk Hx. apply list_elem_of_singleton in Hx. congruence.
    + apply NoDup_singleton.
Qed.

Lemma key_group_snoc k l x :
  key_group k (l ++ [x]) =
    key_group k l ++ (if decide (pod_key x = k) then [x] else []).
Proof.
  unfold key_group. rewrite filter_app. reflexivity.
Qed.

Lemma group_issues_get l k : dict_get k (group_issues l) = group_info k l.
Proof.
  induction l as [|x l IH] using rev_ind.
  - reflexivity.
  - rewrite group_issues_snoc, group_issue_get, IH.
    unfold group_info. rewrite key_group_snoc.
    destruct (decide (k = pod_key x)) as [Hk|Hk].
    + rewrite decide_True by congruence.
      unfold apply_issue, fresh_info, set_missing_cpu, set_missing_memory.
      destruct (key_group k l) as [|first rest]; cbn [app default];
        rewrite ?existsb_app; cbn [existsb];
        destruct (missing_cpu_limit x), (missing_memory_limit x); cbn;
        rewrite ?orb_true_r, ?orb_false_r; reflexivity.
    + rewrite decide_False by congruence. rewrite app_nil_r. reflexivity.
Qed.

(** What the loop leaves under a key: the names of a Finding with that key
    and the OR of the flags of all Findings with that key. *)
Lemma group_issues_entry l k info :
  (k, info) ∈ group_issues l ->
  exists first,
    first ∈ key_group k l /\
    info_pod info = issue_pod first /\
    info_missing_cpu info = existsb missing_cpu_limit (key_group k l) /\
    info_missing_memory info = existsb missing_memory_limit (key_group k l).
Proof.
  intros Hin. apply dict_get_elem in Hin; [|apply group_issues_keys_NoDup].
  rewrite group_issues_get in Hin. unfold group_info in Hin.
  destruct (key_group k l) as [|first rest] eqn:Hg; [discriminate|].
  injection Hin as <-. exists first. repeat split. apply list_elem_of_here.
Qed.

Lemma key_group_elem k l x : x ∈ key_group k l <-> pod_key x = k /\ x ∈ l.
Proof. exact (list_elem_of_filter (fun i => pod_key i = k) l x). Qed.

(** ** Keys and pods *)

Lemma pod_key_key_of issue : pod_key issue = key_of (issue_pod issue).
Proof. reflexivity. Qed.

Lemma append_slash_inj s1 s2 t1 t2 :
  slash_free s1 = true -> slash_free s2 = true ->
  s1 +:+ "/" +:+ t1 = s2 +:+ "/" +:+ t2 -> s1 = s2 /\ t1 = t2.
Proof.
  revert s2. induction s1 as [|a s1 IH]; intros [|b s2] H1 H2 Heq;
    simpl in H1, H2, Heq.
  - injection Heq as Heq. split; [reflexivity | exact Heq].
  - injection Heq as Hb _. subst b. discriminate.
  - injection Heq as Ha _. subst a. discriminate.
  - injection Heq as Hab Heq. subst b.
    apply andb_true_iff in H1, H2. destruct H1 as [_ H1], H2 as [_ H2].
    destruct (IH s2 H1 H2 Heq) as [-> ->]. split; reflexivity.
Qed.

Lemma key_of_inj p q :
  slash_free (fst p) = true -> slash_free (fst q) = true ->
  key_of p = key_of q -> p = q.
Proof.
  destruct p as [n1 p1], q as [n2 p2]. unfold key_of. cbn. intros H1 H2 Heq.
  destruct (append_slash_inj _ _ _ _ H1 H2 Heq) as [-> ->]. reflexivity.
Qed.

Lemma filter_iff_elem {A} (P Q : A -> Prop)
    `{!forall x, Decision (P x), !forall x, Decision (Q x)} (l : list A) :
  (forall x, x ∈ l -> P x <-> Q x) -> filter P l = filter Q l.
Proof.
  induction l as [|a l IH]; intros Hiff; [reflexivity|].
  assert (Ha : P a <-> Q a) by (apply Hiff, list_elem_of_here).
  assert (Hl : filter P l = filter Q l).
  { apply IH. intros x Hx. apply Hiff, list_elem_of_further, Hx. }
  destruct (decide (P a)) as [HP|HP].
  - rewrite !filter_cons_True by tauto. now rewrite Hl.
  - rewrite !filter_cons_False by tauto. exact Hl.
Qed.

(** With no [/] in the namespaces, the Findings of a key are the Findings
    of a pod. *)
Lemma key_group_pod_group l first :
  Forall (fun i => slash_free (namespace i) = true) l ->
  first ∈ l ->
  key_group (pod_key first) l = pod_group (issue_pod first) l.
Proof.
  intros Hfree Hfirst. unfold key_group, pod_group.
  apply filter_iff_elem. intros x Hx.
  rewrite Forall_forall in Hfree. split.
  - intros Hk. apply key_of_inj; [apply Hfree, Hx | apply Hfree, Hfirst | exact Hk].
  - intros Hp. rewrite !pod_key_key_of, Hp. reflexivity.
Qed.

Lemma remove_dups_fmap_inj_on {A B} `{EqDecision A, EqDecision B}
    (f : A -> B) (l : list A) :
  (forall x y, x ∈ l -> y ∈ l -> f x = f y -> x = y) ->
  remove_dups (f <$> l) = f <$> remove_dups l.
Proof.
  induction l as [|a l IH]; intros Hinj; [reflexivity|].
  assert (Hl : remove_dups (f <$> l) = f <$> remove_dups l).
  { apply IH. intros x y Hx Hy. apply Hinj; apply list_elem_of_further; assumption. }
  cbn [fmap list_fmap remove_dups].
  destruct (decide_rel elem_of a l) as [Ha|Ha];
    destruct (decide_rel elem_of (f a) (f <$> l)) as [Hfa|Hfa].
  - exact Hl.
  - exfalso. apply Hfa, list_elem_of_fmap_2, Ha.
  - exfalso. apply list_elem_of_fmap in Hfa. destruct Hfa as (y & Hy & Hin).
    apply Ha. rewrite (Hinj a y); [exact Hin | apply list_elem_of_here | | exact Hy].
    apply list_elem_of_further, Hin.
  - cbn. now rewrite Hl.
Qed.

(** The dictionary has one entry per distinct key, and without [/] in the
    namespaces one entry per distinct pod. *)
Lemma group_issues_length_keys l :
  length (group_issues l) = length (remove_dups (pod_key <$> l)).
Proof.
  rewrite <- (length_fmap fst (group_issues l)).
  apply Permutation_length, NoDup_Permutation.
  - apply group_issues_keys_NoDup.
  - apply NoDup_remove_dups.
  - intros k. rewrite elem_of_remove_dups. apply group_issues_keys_elem.
Qed.

Lemma group_issues_length_pods l :
  Forall (fun i => slash_free (namespace i) = true) l ->
  length (group_issues l) = distinct_pods l.
Proof.
  intros Hfree. rewrite group_issues_length_keys. unfold distinct_pods.
  replace (pod_key <$> l) with (key_of <$> (issue_pod <$> l)).
  - rewrite remove_dups_fmap_inj_on; [apply length_fmap|].
    intros p q Hp Hq. rewrite Forall_forall in Hfree.
    apply list_elem_of_fmap in Hp, Hq.
    destruct Hp as (i & -> & Hi), Hq as (j & -> & Hj).
    apply key_of_inj; [apply Hfree, Hi | apply Hfree, Hj].
  - rewrite <- list_fmap_compose. reflexivity.
Qed.

(** ** The annotation loop *)

Section Annotate.

Context {K : Type} (self : KubernetesPodChecker K).

Lemma annotate_pod_calls api info w :
  v1_client self = Some api ->
  patch_calls (annotate_pod self (info_namespace info) (info_pod_name info)
                 (info_missing_cpu info) (info_missing_memory info) w).2 =
    patch_calls w ++ option_list (call_of info).
Proof.
  intros Hclient. unfold annotate_pod, call_of.
  destruct (annotation_value _ _) as [value|]; cbn.
  - rewrite Hclient.
    destruct (patch_namespaced_pod api _ _ _ _) as [[] k']; reflexivity.
  - now rewrite app_nil_r.
Qed.

Lemma annotate_step_world acc info :
  (annotate_step self acc info).2 =
    (annotate_pod self (info_namespace info) (info_pod_name info)
       (info_missing_cpu info) (info_missing_memory info) acc.2).2.
Proof.
  destruct acc as [[s f] w]. unfold annotate_step. cbn [snd].
  destruct (annotate_pod _ _ _ _ _ _) as [[] w']; reflexivity.
Qed.

Lemma annotate_step_counts acc info :
  (annotate_step self acc info).1.1 + (annotate_step self acc info).1.2 =
    acc.1.1 + acc.1.2 + 1.
Proof.
  destruct acc as [[s f] w]. unfold annotate_step.
  destruct (annotate_pod _ _ _ _ _ _) as [[] w']; cbn; lia.
Qed.

Lemma annotate_loop_counts infos acc :
  (fold_left (annotate_step self) infos acc).1.1 +
  (fold_left (annotate_step self) infos acc).1.2 =
    acc.1.1 + acc.1.2 + length infos.
Proof.
  revert acc. induction infos as [|info infos IH]; intros acc; cbn [fold_left length].
  - lia.
  - rewrite IH, annotate_step_counts. lia.
Qed.

Lemma annotate_loop_calls api infos acc :
  v1_client self = Some api ->
  patch_calls (fold_left (annotate_step self) infos acc).2 =
    patch_calls acc.2 ++ omap call_of infos.
Proof.
  intros Hclient. revert acc.
  induction infos as [|info infos IH]; intros acc; cbn [fold_left].
  - now rewrite app_nil_r.
  - rewrite IH, annotate_step_world, (annotate_pod_calls api) by exact Hclient.
    rewrite <- app_assoc. f_equal. cbn [omap list_omap].
    destruct (call_of info); reflexivity.
Qed.

Lemma annotate_loop_unflagged infos s f w :
  Forall (fun info => info_missing_cpu info = false /\ info_missing_memory info = false) infos ->
  fold_left (annotate_step self) infos (s, f, w) = (s, f + length infos, w).
Proof.
  intros Hall. revert f. induction Hall as [|info infos [Hc Hm] _ IH]; intros f;
    cbn [fold_left length].
  - f_equal. f_equal. lia.
  - unfold annotate_step at 2, annotate_pod. rewrite Hc, Hm. cbn.
    rewrite IH. f_equal. f_equal. lia.
Qed.

Lemma annotate_calls api issues w :
  v1_client self = Some api ->
  calls_since w (annotate_pods_with_issues self issues w).2 =
    omap call_of (dict_values (group_issues issues)).
Proof.
  intros Hclient. unfold calls_since, annotate_pods_with_issues.
  rewrite (annotate_loop_calls api) by exact Hclient. cbn [snd].
  apply drop_app_length.
Qed.

Lemma annotate_counts issues w :
  (annotate_pods_with_issues self issues w).1.1 +
  (annotate_pods_with_issues self issues w).1.2 = length (group_issues issues).
Proof.
  unfold annotate_pods_with_issues. rewrite annotate_loop_counts.
  unfold dict_values. rewrite length_fmap. reflexivity.
Qed.

End Annotate.

Lemma call_of_elem (d : dict PodInfo) c :
  c ∈ omap call_of (dict_values d) <->
  exists k info, (k, info) ∈ d /\ call_of info = Some c.
Proof.
  unfold dict_values. rewrite list_elem_of_omap. split.
  - intros (info & Hin & Hc). apply list_elem_of_fmap in Hin.
    destruct Hin as ([k info'] & -> & Hin). eauto.
  - intros (k & info & Hin & Hc). exists info. split; [|exact Hc].
    apply list_elem_of_fmap. exists (k, info). split; [reflexivity | exact Hin].
Qed.

Lemma call_of_Some info c :
  call_of info = Some c ->
  call_target c = info_pod info /\
  exists v, call_annotations c = {[ "warning" := v ]} /\
            annotation_value (info_missing_cpu info) (info_missing_memory info) = Some v.
Proof.
  unfold call_of. destruct (annotation_value _ _) as [v|]; [|discriminate].
  intros [= <-]. split; [reflexivity | eauto].
Qed.

Lemma annotation_value_label cpu memory v :
  annotation_value cpu memory = Some v -> label_of cpu memory v.
Proof.
  destruct cpu, memory; cbn; intros [= <-]; constructor.
Qed.

Lemma annotation_value_flagged cpu memory :
  cpu || memory = true -> is_Some (annotation_value cpu memory).
Proof. destruct cpu, memory; cbn; intros H; eauto; discriminate. Qed.

Lemma calls_NoDup (d : dict PodInfo) :
  NoDup d.*1 ->
  (forall k info, (k, info) ∈ d -> key_of (info_pod info) = k) ->
  NoDup (call_target <$> omap call_of (dict_values d)).
Proof.
  unfold dict_values.
  induction d as [|[k info] d IH]; intros Hnd Hkey; [constructor|].
  apply NoDup_cons in Hnd. destruct Hnd as [Hk Hnd].
  assert (Hrest : NoDup (call_target <$> omap call_of d.*2)).
  { apply IH; [exact Hnd|]. intros k' info' Hin.
    apply Hkey, list_elem_of_further, Hin. }
  cbn [fmap list_fmap snd omap list_omap].
  destruct (call_of info) as [c|] eqn:Hc; [|exact Hrest].
  cbn [fmap list_fmap]. apply NoDup_cons. split; [|exact Hrest].
  intros Hin. apply list_elem_of_fmap in Hin. destruct Hin as (c' & Htarget & Hin).
  apply (call_of_elem d) in Hin. destruct Hin as (k' & info' & Hin' & Hc').
  apply call_of_Some in Hc, Hc'. destruct Hc as [Hc _], Hc' as [Hc' _].
  apply Hk. apply list_elem_of_fmap. exists (k', info'). split; [|exact Hin'].
  cbn. rewrite <- (Hkey k info (list_elem_of_here _ _)).
  rewrite <- (Hkey k' info' (list_elem_of_further _ _ _ Hin')). congruence.
Qed.

Lemma group_issues_key_of l k info :
  (k, info) ∈ group_issues l -> key_of (info_pod info) = k.
Proof.
  intros Hin. apply group_issues_entry in Hin.
  destruct Hin as (first & Hfirst & Hpod & _).
  apply key_group_elem in Hfirst. destruct Hfirst as [Hk _].
  rewrite Hpod, <- pod_key_key_of. exact Hk.
Qed.

Lemma group_issues_flagged l k info :
  Forall (fun i => missing_cpu_limit i || missing_memory_limit i = true) l ->
  (k, info) ∈ group_issues l ->
  info_missing_cpu info || info_missing_memory info = true.
Proof.
  intros Hflag Hin. apply group_issues_entry in Hin.
  destruct Hin as (first & Hfirst & _ & -> & ->).
  assert (Hl : first ∈ l) by (apply key_group_elem in Hfirst; tauto).
  rewrite Forall_forall in Hflag. specialize (Hflag first Hl).
  apply list_elem_of_In in Hfirst.
  apply orb_true_iff in Hflag. apply orb_true_iff.
  destruct Hflag as [H|H]; [left | right]; apply existsb_exists; eauto.
Qed.

(** ** Annotator: the properties of the specification *)

(** C4, amended: for every sequence of Findings (each with at least one flag
    true) whose namespaces contain no [/], given to a connected checker,
    the patch calls made are exactly one per distinct (namespace, pod_name)
    pair, and each carries as ["warning"] the label of the logical OR of
    [missing_cpu_limit] and of [missing_memory_limit] over all Findings of
    that pod: ["no-limits"], ["no-cpu-limit"] or ["no-memory-limit"]. *)
Theorem C4_one_patch_per_pod {K} (self : KubernetesPodChecker K) (api : CoreV1Api K)
    (issues : list ContainerLimitIssue) (w : World K) :
  v1_client self = Some api ->
  Forall (fun i => slash_free (namespace i) = true) issues ->
  Forall (fun i => missing_cpu_limit i || missing_memory_limit i = true) issues ->
  exists calls,
    patch_calls (annotate_pods_with_issues self issues w).2 = patch_calls w ++ calls /\
    one_patch_per_pod issues calls.
Proof.
  intros Hclient Hfree Hflag.
  exists (omap call_of (dict_values (group_issues issues))). split.
  { unfold annotate_pods_with_issues.
    now rewrite (annotate_loop_calls self api) by exact Hclient. }
  split; [|split].
  - apply calls_NoDup; [apply group_issues_keys_NoDup|].
    intros k info. apply group_issues_key_of.
  - intros p. split.
    + intros Hp. apply list_elem_of_fmap in Hp. destruct Hp as (c & -> & Hc).
      apply call_of_elem in Hc. destruct Hc as (k & info & Hin & Hc).
      apply call_of_Some in Hc. destruct Hc as [-> _].
      apply group_issues_entry in Hin. destruct Hin as (first & Hfirst & -> & _).
      apply key_group_elem in Hfirst. apply list_elem_of_fmap_2. tauto.
    + intros Hp. apply list_elem_of_fmap in Hp. destruct Hp as (i & -> & Hi).
      assert (Hkey : pod_key i ∈ (group_issues issues).*1).
      { apply group_issues_keys_elem, list_elem_of_fmap_2, Hi. }
      apply list_elem_of_fmap in Hkey. destruct Hkey as ([k info] & Hk & Hin).
      cbn in Hk. subst k.
      destruct (annotation_value_flagged _ _ (group_issues_flagged _ _ _ Hflag Hin))
        as [v Hv].
      destruct (group_issues_entry _ _ _ Hin) as (first & Hfirst & Hpod & _).
      apply key_group_elem in Hfirst. destruct Hfirst as [Hsame Hl].
      rewrite Forall_forall in Hfree.
      assert (Hpods : issue_pod first = issue_pod i).
      { apply key_of_inj; [apply Hfree, Hl | apply Hfree, Hi | exact Hsame]. }
      apply list_elem_of_fmap.
      exists (mkCall (info_pod_name info) (info_namespace info) {[ "warning" := v ]}).
      split; [rewrite <- Hpods, <- Hpod; reflexivity|].
      apply call_of_elem. exists (pod_key i), info. split; [exact Hin|].
      unfold call_of. now rewrite Hv.
  - intros c Hc. apply call_of_elem in Hc. destruct Hc as (k & info & Hin & Hc).
    apply call_of_Some in Hc. destruct Hc as (Htarget & v & Hann & Hv).
    exists v. split; [exact Hann|].
    destruct (group_issues_entry _ _ _ Hin) as (first & Hfirst & Hpod & Hcpu & Hmem).
    apply key_group_elem in Hfirst. destruct Hfirst as [<- Hl].
    rewrite Htarget, Hpod, <- (key_group_pod_group _ _ Hfree Hl), <- Hcpu, <- Hmem.
    apply annotation_value_label, Hv.
Qed.

Lemma C4_one_patch_per_pod_witness :
  exists calls,
    patch_calls (annotate_pods_with_issues (lab_checker []) two_pods lab_world).2 =
      patch_calls lab_world ++ calls /\
    one_patch_per_pod two_pods calls.
Proof.
  apply (C4_one_patch_per_pod (lab_checker []) (lab_api []) two_pods lab_world).
  - reflexivity.
  - repeat constructor.
  - repeat constructor.
Defined.

(** C4 as stated fails: two Findings of the two pods [a/b]/[c] and
    [a]/[b/c] share the key ["a/b/c"], so a single patch call is made,
    to the first pod only. *)
Lemma C4_one_patch_per_pod_counterexample :
  ~ one_patch_per_pod slash_issues
      (calls_since lab_world
         (annotate_pods_with_issues (lab_checker []) slash_issues lab_world).2).
Proof.
  intros (_ & Hcover & _).
  assert (Hcalls :
    call_target <$> calls_since lab_world
      (annotate_pods_with_issues (lab_checker []) slash_issues lab_world).2 =
    [("a/b", "c")]) by (vm_compute; reflexivity).
  rewrite Hcalls in Hcover. specialize (Hcover ("a", "b/c")).
  destruct Hcover as [_ Hcover].
  assert (Hin : ("a", "b/c") ∈ issue_pod <$> slash_issues).
  { cbn. apply list_elem_of_further, list_elem_of_here. }
  apply Hcover, list_elem_of_singleton in Hin. discriminate.
Qed.

(** C5, amended: for every sequence of Findings whose namespaces contain no
    [/], the success and failure counts sum to the number of distinct
    (namespace, pod_name) pairs, whether or not the checker is connected;
    and with a connected checker, whatever the outcome of each patch call,
    every pod with a flagged Finding is patched: a failed attempt does not
    stop the loop. *)
Theorem C5_counts_sum_to_distinct_pods {K} (self : KubernetesPodChecker K)
    (issues : list ContainerLimitIssue) (w : World K) :
  Forall (fun i => slash_free (namespace i) = true) issues ->
  (annotate_pods_with_issues self issues w).1.1 +
  (annotate_pods_with_issues self issues w).1.2 = distinct_pods issues /\
  (forall api, v1_client self = Some api ->
   forall i, i ∈ issues ->
     missing_cpu_limit i || missing_memory_limit i = true ->
     issue_pod i ∈
       call_target <$> calls_since w (annotate_pods_with_issues self issues w).2).
Proof.
  intros Hfree. split.
  - rewrite annotate_counts. apply group_issues_length_pods, Hfree.
  - intros api Hclient i Hi Hflag.
    rewrite (annotate_calls self api) by exact Hclient.
    assert (Hkey : pod_key i ∈ (group_issues issues).*1).
    { apply group_issues_keys_elem, list_elem_of_fmap_2, Hi. }
    apply list_elem_of_fmap in Hkey. destruct Hkey as ([k info] & Hk & Hin).
    cbn in Hk. subst k.
    destruct (group_issues_entry _ _ _ Hin) as (first & Hfirst & Hpod & Hcpu & Hmem).
    assert (Hgroup : i ∈ key_group (pod_key i) issues).
    { apply key_group_elem. split; [reflexivity | exact Hi]. }
    assert (Hinfo : info_missing_cpu info || info_missing_memory info = true).
    { rewrite Hcpu, Hmem. apply list_elem_of_In in Hgroup.
      apply orb_true_iff in Hflag. apply orb_true_iff.
      destruct Hflag as [H|H]; [left | right]; apply existsb_exists; eauto. }
    destruct (annotation_value_flagged _ _ Hinfo) as [v Hv].
    apply key_group_elem in Hfirst. destruct Hfirst as [Hsame Hl].
    rewrite Forall_forall in Hfree.
    assert (Hpods : issue_pod first = issue_pod i).
    { apply key_of_inj; [apply Hfree, Hl | apply Hfree, Hi | exact Hsame]. }
    apply list_elem_of_fmap.
    exists (mkCall (info_pod_name info) (info_namespace info) {[ "warning" := v ]}).
    split; [rewrite <- Hpods, <- Hpod; reflexivity|].
    apply call_of_elem. exists (pod_key i), info. split; [exact Hin|].
    unfold call_of. now rewrite Hv.
Qed.

(** In the witness the first pod has been deleted and its patch fails; the
    second pod is patched all the same. *)
Lemma C5_counts_sum_to_distinct_pods_witness :
  (annotate_pods_with_issues (lab_checker [("ns-a", "web-1")]) two_pods lab_world).1.1 +
  (annotate_pods_with_issues (lab_checker [("ns-a", "web-1")]) two_pods lab_world).1.2 =
    distinct_pods two_pods /\
  (forall api, v1_client (lab_checker [("ns-a", "web-1")]) = Some api ->
   forall i, i ∈ two_pods ->
     missing_cpu_limit i || missing_memory_limit i = true ->
     issue_pod i ∈
       call_target <$> calls_since lab_world
         (annotate_pods_with_issues (lab_checker [("ns-a", "web-1")]) two_pods lab_world).2).
Proof.
  apply (C5_counts_sum_to_distinct_pods (lab_checker [("ns-a", "web-1")])
           two_pods lab_world).
  repeat constructor.
Defined.

(** C5 as stated fails: the two Findings of [slash_issues] belong to two
    distinct pods, and the counts sum to one. *)
Lemma C5_counts_sum_to_distinct_pods_counterexample :
  (annotate_pods_with_issues (lab_checker []) slash_issues lab_world).1.1 +
  (annotate_pods_with_issues (lab_checker []) slash_issues lab_world).1.2 <>
    distinct_pods slash_issues.
Proof.
  assert (Hsum :
    (annotate_pods_with_issues (lab_checker []) slash_issues lab_world).1.1 +
    (annotate_pods_with_issues (lab_checker []) slash_issues lab_world).1.2 = 1)
    by (vm_compute; reflexivity).
  assert (Hpods : distinct_pods slash_issues = 2) by (vm_compute; reflexivity).
  rewrite Hsum, Hpods. discriminate.
Qed.

(** C10: called with both flags false, [annotate_pod] makes no patch call,
    leaves the world as it is and returns [False]; the batch loop counts
    such a pod as a failure.  A batch whose Findings all have both flags
    false therefore ends with no success, one failure per dictionary entry,
    and an unchanged world. *)
Theorem C10_unflagged_pod_counts_as_failure {K} (self : KubernetesPodChecker K)
    (ns pod : string) (success_count failure_count : nat) (w : World K) :
  annotate_pod self ns pod false false w = (false, w) /\
  annotate_step self (success_count, failure_count, w) (mkInfo ns pod false false) =
    (success_count, failure_count + 1, w) /\
  (forall issues,
     Forall (fun i => missing_cpu_limit i = false /\ missing_memory_limit i = false) issues ->
     annotate_pods_with_issues self issues w = (0, length (group_issues issues), w)).
Proof.
  split; [reflexivity|]. split; [reflexivity|].
  intros issues Hall. unfold annotate_pods_with_issues.
  rewrite annotate_loop_unflagged.
  - unfold dict_values. rewrite length_fmap. reflexivity.
  - apply Forall_forall. intros info Hinfo. unfold dict_values in Hinfo.
    apply list_elem_of_fmap in Hinfo. destruct Hinfo as ([k info'] & -> & Hin).
    destruct (group_issues_entry _ _ _ Hin) as (first & _ & _ & Hcpu & Hmem).
    cbn [snd]. rewrite Hcpu, Hmem. rewrite Forall_forall in Hall.
    split; apply not_true_is_false; intros H; apply existsb_exists in H;
      destruct H as (i & Hi & Hflag); apply list_elem_of_In, key_group_elem in Hi;
      destruct Hi as [_ Hi]; destruct (Hall i Hi); congruence.
Qed.

Lemma C10_unflagged_pod_counts_as_failure_witness :
  annotate_pods_with_issues (lab_checker [])
    [mkIssue "ns-a" "web-1" "app" false false; mkIssue "ns-b" "db-0" "postgres" false false]
    lab_world = (0, 2, lab_world).
Proof.
  destruct (C10_unflagged_pod_counts_as_failure (lab_checker []) "ns-a" "web-1" 0 0 lab_world)
    as (_ & _ & H).
  apply (H [mkIssue "ns-a" "web-1" "app" false false;
            mkIssue "ns-b" "db-0" "postgres" false false]).
  repeat constructor.
Defined.

(** ** Session: the properties of the specification *)

Lemma main_no_findings {K} (args : Args) (config : Config K) self (w : World K) :
  connect config (mkChecker None) = (true, self) ->
  get_containers_with_missing_limits self (namespace_arg args) (cluster w) = [] ->
  main args config w = mkRun 0 [render (output args) []] w.
Proof.
  intros Hconnect Hnone. unfold main. rewrite Hconnect. cbn [negb].
  rewrite Hnone. rewrite bool_decide_eq_true_2 by reflexivity.
  rewrite andb_false_r. reflexivity.
Qed.

(** C6: when the listing call raises, [ApiException] or any other
    exception, the evaluator returns the empty list instead of raising;
    [main] then runs to the end with exit code 0, changes nothing in the
    cluster and prints the report of the empty list, which is exactly what
    it does on a cluster whose pods give no Finding. *)
Theorem C6_listing_failure_gives_no_findings {K} (args : Args) (config : Config K)
    (self : KubernetesPodChecker K) (api : CoreV1Api K) (w : World K) :
  connect config (mkChecker None) = (true, self) ->
  v1_client self = Some api ->
  listing_fails (list_pods api (namespace_arg args) (cluster w)) = true ->
  get_containers_with_missing_limits self (namespace_arg args) (cluster w) = [] /\
  main args config w = mkRun 0 [render (output args) []] w /\
  (forall (config' : Config K) self' api' items,
     connect config' (mkChecker None) = (true, self') ->
     v1_client self' = Some api' ->
     list_pods api' (namespace_arg args) (cluster w) = ListOk items ->
     evaluate_pods items = [] ->
     main args config' w = main args config w).
Proof.
  intros Hconnect Hclient Hfails.
  assert (Hnone : get_containers_with_missing_limits self (namespace_arg args) (cluster w) = []).
  { unfold get_containers_with_missing_limits. rewrite Hclient.
    destruct (list_pods api _ _); [discriminate | reflexivity | reflexivity]. }
  split; [exact Hnone|]. split; [apply (main_no_findings _ _ self); assumption|].
  intros config' self' api' items Hconnect' Hclient' Hlist Hempty.
  rewrite (main_no_findings _ config self), (main_no_findings _ config' self');
    try assumption; [reflexivity|].
  unfold get_containers_with_missing_limits. rewrite Hclient', Hlist. exact Hempty.
Qed.

Lemma C6_listing_failure_gives_no_findings_witness :
  get_containers_with_missing_limits (mkChecker (Some unlistable_api))
    (namespace_arg annotate_args) (cluster lab_world) = [] /\
  main annotate_args unlistable lab_world =
    mkRun 0 [render (output annotate_args) []] lab_world /\
  (forall (config' : Config (gmap (string * string) string)) self' api' items,
     connect config' (mkChecker None) = (true, self') ->
     v1_client self' = Some api' ->
     list_pods api' (namespace_arg annotate_args) (cluster lab_world) = ListOk items ->
     evaluate_pods items = [] ->
     main annotate_args config' lab_world = main annotate_args unlistable lab_world).
Proof.
  apply (C6_listing_failure_gives_no_findings annotate_args unlistable
           (mkChecker (Some unlistable_api)) unlistable_api lab_world);
    reflexivity.
Defined.

(** C7, amended: [main] returns exit code 1 exactly when [connect] fails,
    that is when the in-cluster loader raises an unexpected error (the
    external configuration is then not tried), or when it finds no
    configuration and the external loader fails too.  In every other case,
    whatever the listing and the patch calls do, it returns exit code 0. *)
Theorem C7_exit_code_one_iff_connect_fails {K} (args : Args) (config : Config K)
    (w : World K) :
  (exit_code (main args config w) = 1 <->
     load_incluster_config config = LoadException \/
     (load_incluster_config config = LoadConfigException /\
      load_fails (load_kube_config config) = true)) /\
  (exit_code (main args config w) = 0 <->
     (exists api, load_incluster_config config = LoadOk api) \/
     (load_incluster_config config = LoadConfigException /\
      exists api, load_kube_config config = LoadOk api)).
Proof.
  unfold main, connect.
  destruct (load_incluster_config config) as [api| |];
    [| destruct (load_kube_config config) as [api| |] |]; cbn; split; split;
    try discriminate; try (intros _; reflexivity); eauto;
    try (intros [H | [H1 H2]]; discriminate);
    try (intros [[api' H] | [H1 [api' H2]]]; discriminate).
Qed.

(** C7 as stated fails: when the in-cluster loader raises an unexpected
    error, [main] returns 1 although the external configuration would load,
    so not both credential paths fail. *)
Lemma C7_exit_code_one_iff_connect_fails_counterexample :
  ~ (exit_code (main annotate_args broken_incluster lab_world) = 1 <->
     load_fails (load_incluster_config broken_incluster) = true /\
     load_fails (load_kube_config broken_incluster) = true).
Proof.
  intros [Hexit _]. destruct (Hexit eq_refl) as [_ Hkube]. discriminate.
Qed.

(** ** Reporters: the properties of the specification *)

(** C8: on the empty list of Findings the tabular reporter returns the
    sentence "No containers with missing resource limits found.", the
    delimited reporter the header line alone, and the structured reporter
    the empty list [[]]; each is a total function, so none fails. *)
Theorem C8_reporters_on_empty :
  OutputFormatter.format_table [] = "No containers with missing resource limits found." /\
  OutputFormatter.format_csv [] =
    "NAMESPACE,POD_NAME,CONTAINER_NAME,MISSING_CPU_LIMIT,MISSING_MEMORY_LIMIT" /\
  OutputFormatter.format_json [] = "[]".
Proof. repeat split. Qed.

Lemma fold_left_append_each {A B} (f : A -> B) (l : list A) (acc : list B) :
  fold_left (fun lines x => lines ++ [f x]) l acc = acc ++ (f <$> l).
Proof.
  revert acc. induction l as [|x l IH]; intros acc; cbn [fold_left fmap list_fmap].
  - now rewrite app_nil_r.
  - rewrite IH, <- app_assoc. reflexivity.
Qed.

Lemma append_cons c (s1 s2 : string) : String c s1 +:+ s2 = String c (s1 +:+ s2).
Proof. reflexivity. Qed.

Lemma append_assoc (s1 s2 s3 : string) : (s1 +:+ s2) +:+ s3 = s1 +:+ s2 +:+ s3.
Proof.
  induction s1 as [|c s1 IH]; [reflexivity|]. now rewrite !append_cons, IH.
Qed.

Lemma append_length (s1 s2 : string) :
  String.length (s1 +:+ s2) = String.length s1 + String.length s2.
Proof.
  induction s1 as [|c s1 IH]; [reflexivity|].
  rewrite append_cons. cbn [String.length]. now rewrite IH.
Qed.

Lemma append_prefix (s1 s2 : string) : String.prefix s1 (s1 +:+ s2) = true.
Proof.
  induction s1 as [|c s1 IH].
  - destruct s2; reflexivity.
  - rewrite append_cons. cbn [String.prefix].
    destruct (ascii_dec c c); [exact IH | contradiction].
Qed.

Lemma str_repeat_length c n : String.length (str_repeat c n) = n * String.length c.
Proof.
  induction n as [|n IH]; [reflexivity|].
  cbn [str_repeat]. rewrite append_length, IH. lia.
Qed.

(** A padded cell starts with its value and is as wide as the column, or
    as the value when that is wider. *)
Lemma ljust_spec val width :
  String.prefix val (ljust val width) = true /\
  String.length (ljust val width) = Nat.max width (String.length val).
Proof.
  unfold ljust. split; [apply append_prefix|].
  rewrite append_length, str_repeat_length. cbn. lia.
Qed.

Lemma unescape_escape_char c rest :
  json.unescape (json.escape_char c +:+ rest) =
    match json.unescape rest with
    | Some tail => Some (String c tail)
    | None => None
    end.
Proof.
  destruct c as [[] [] [] [] [] [] [] []]; reflexivity.
Qed.

(** The inside of a JSON string literal reads back as the string. *)
Lemma unescape_escape s : json.unescape (json.escape s) = Some s.
Proof.
  induction s as [|c s IH]; [reflexivity|].
  cbn [json.escape]. now rewrite unescape_escape_char, IH.
Qed.

(** ** Further properties of the evaluator *)

Lemma evaluate_pods_elem items f :
  f ∈ evaluate_pods items ->
  exists pod container,
    pod ∈ items /\ container ∈ V1.containers (V1.spec pod) /\
    finding_of (pod, container) = Some f.
Proof.
  rewrite evaluate_pods_omap. intros Hf.
  apply list_elem_of_omap in Hf. destruct Hf as ([pod container] & Hin & Hf).
  exists pod, container. split; [|split; [|exact Hf]].
  - apply list_elem_of_In in Hin. unfold snapshot_order in Hin.
    apply in_flat_map in Hin. destruct Hin as (pod' & Hpod & Hin).
    apply in_map_iff in Hin. destruct Hin as (c & [= <- <-] & _).
    apply list_elem_of_In, Hpod.
  - apply list_elem_of_In in Hin. unfold snapshot_order in Hin.
    apply in_flat_map in Hin. destruct Hin as (pod' & Hpod & Hin).
    apply in_map_iff in Hin. destruct Hin as (c & [= <- <-] & Hc).
    apply list_elem_of_In, Hc.
Qed.

Lemma evaluate_pods_flagged items :
  Forall (fun i => missing_cpu_limit i || missing_memory_limit i = true)
         (evaluate_pods items).
Proof.
  apply Forall_forall. intros f Hf.
  apply evaluate_pods_elem in Hf. destruct Hf as (pod & container & _ & _ & Hf).
  unfold finding_of in Hf.
  destruct (limit_missing _ "cpu" || limit_missing _ "memory") eqn:Hflag;
    [|discriminate].
  injection Hf as <-. exact Hflag.
Qed.

(** X1: every Finding the evaluator emits has at least one of its two
    flags true. *)
Theorem X1_findings_are_flagged (items : list V1.Pod) (f : ContainerLimitIssue) :
  f ∈ evaluate_pods items ->
  missing_cpu_limit f || missing_memory_limit f = true.
Proof.
  intros Hf. pose proof (evaluate_pods_flagged items) as Hall.
  rewrite Forall_forall in Hall. apply Hall, Hf.
Qed.

Lemma X1_findings_are_flagged_witness :
  missing_cpu_limit app_issue || missing_memory_limit app_issue = true.
Proof.
  apply (X1_findings_are_flagged [web_1] app_issue).
  assert (Hrun : evaluate_pods [web_1] = [app_issue; sidecar_issue])
    by (vm_compute; reflexivity).
  rewrite Hrun. apply list_elem_of_here.
Defined.

Lemma snapshot_order_app items1 items2 :
  snapshot_order (items1 ++ items2) = snapshot_order items1 ++ snapshot_order items2.
Proof. unfold snapshot_order. apply flat_map_app. Qed.

(** X2: evaluating two snapshots one after the other gives the Findings of
    the first followed by the Findings of the second; in particular the
    Findings of a pod do not depend on the pods around it. *)
Theorem X2_evaluate_pods_app (items1 items2 : list V1.Pod) :
  evaluate_pods (items1 ++ items2) = evaluate_pods items1 ++ evaluate_pods items2.
Proof.
  rewrite !evaluate_pods_omap, snapshot_order_app. apply omap_app.
Qed.

(** X3: the evaluator emits at most one Finding per container of the
    snapshot. *)
Theorem X3_at_most_one_finding_per_container (items : list V1.Pod) :
  length (evaluate_pods items) <=
    list_sum (map (fun pod => length (V1.containers (V1.spec pod))) items).
Proof.
  rewrite evaluate_pods_omap.
  assert (Hlen : length (snapshot_order items) =
                 list_sum (map (fun pod => length (V1.containers (V1.spec pod))) items)).
  { induction items as [|pod items IH]; [reflexivity|].
    cbn [snapshot_order flat_map map list_sum].
    rewrite length_app, length_map. unfold snapshot_order in IH. now rewrite IH. }
  rewrite <- Hlen. generalize (snapshot_order items) as l.
  induction l as [|pc l IH]; cbn [omap list_omap length]; [lia|].
  destruct (finding_of pc); cbn [length]; lia.
Qed.

(** ** Further properties of the session *)

(** X4: [connect] installs the in-cluster client and returns [True]
    whenever the in-cluster configuration loads, whatever the kubeconfig
    would do; it installs the kubeconfig client and returns [True] when the
    in-cluster loader reports that there is no configuration and the
    kubeconfig loads.  It returns [True] in no other case, and when it
    returns [False] the checker is left as it was. *)
Theorem X4_connect_installs_client {K} (config : Config K)
    (self : KubernetesPodChecker K) :
  (forall api, load_incluster_config config = LoadOk api ->
     connect config self = (true, mkChecker (Some api))) /\
  (forall api, load_incluster_config config = LoadConfigException ->
     load_kube_config config = LoadOk api ->
     connect config self = (true, mkChecker (Some api))) /\
  ((connect config self).1 = true ->
     exists api, (connect config self).2 = mkChecker (Some api) /\
       (load_incluster_config config = LoadOk api \/
        (load_incluster_config config = LoadConfigException /\
         load_kube_config config = LoadOk api))) /\
  ((connect config self).1 = false -> (connect config self).2 = self).
Proof.
  unfold connect. split; [|split; [|split]].
  - intros api ->. reflexivity.
  - intros api -> ->. reflexivity.
  - destruct (load_incluster_config config) as [api| |];
      [| destruct (load_kube_config config) as [api| |] |]; cbn;
      intros H; try discriminate; eauto.
  - destruct (load_incluster_config config) as [api| |];
      [| destruct (load_kube_config config) as [api| |] |]; cbn;
      intros H; try discriminate; reflexivity.
Qed.

(** In the witness the in-cluster configuration loads and the kubeconfig is
    missing, and in a second configuration both would load: the in-cluster
    client is installed in both. *)
Lemma X4_connect_installs_client_witness :
  connect unlistable (mkChecker None) = (true, mkChecker (Some unlistable_api)) /\
  connect (mkConfig (LoadOk unlistable_api) (LoadOk (lab_api []))) (mkChecker None) =
    (true, mkChecker (Some unlistable_api)).
Proof.
  split.
  - destruct (X4_connect_installs_client unlistable (mkChecker None)) as (H & _).
    apply H. reflexivity.
  - destruct (X4_connect_installs_client
                (mkConfig (LoadOk unlistable_api) (LoadOk (lab_api [])))
                (mkChecker None)) as (H & _).
    apply H. reflexivity.
Defined.

(** X5: whatever the Findings and whether or not the checker is connected,
    the success and failure counts of a batch sum to the number of distinct
    keys [namespace/pod_name] among the Findings, which is at most the
    number of Findings. *)
Theorem X5_counts_sum_to_distinct_keys {K} (self : KubernetesPodChecker K)
    (issues : list ContainerLimitIssue) (w : World K) :
  (annotate_pods_with_issues self issues w).1.1 +
  (annotate_pods_with_issues self issues w).1.2 =
    length (remove_dups (pod_key <$> issues)) /\
  length (remove_dups (pod_key <$> issues)) <= length issues.
Proof.
  split.
  - rewrite annotate_counts. apply group_issues_length_keys.
  - rewrite <- (length_fmap pod_key issues).
    generalize (pod_key <$> issues) as keys.
    induction keys as [|k keys IH]; cbn [remove_dups length]; [lia|].
    destruct (decide_rel elem_of k keys); cbn [length]; lia.
Qed.

(** X6: the annotation pass never changes the report or the exit code: a run
    prints and returns the same with and without [--annotate], whatever the
    patch calls do; and without [--annotate] it leaves the world as it was. *)
Theorem X6_report_independent_of_annotation {K} (fmt : string) (ns : option string)
    (ann : bool) (config : Config K) (w : World K) :
  printed (main (mkArgs fmt ns ann) config w) =
    printed (main (mkArgs fmt ns false) config w) /\
  exit_code (main (mkArgs fmt ns ann) config w) =
    exit_code (main (mkArgs fmt ns false) config w) /\
  world (main (mkArgs fmt ns false) config w) = w.
Proof.
  unfold main. destruct (connect config (mkChecker None)) as [[] checker];
    cbn; repeat split.
Qed.

(** ** Further properties of the annotator *)

Lemma filter_all {A} (P : A -> Prop) `{!forall x, Decision (P x)} (l : list A) :
  (forall x, x ∈ l -> P x) -> filter P l = l.
Proof.
  induction l as [|a l IH]; intros Hall; [reflexivity|].
  rewrite filter_cons_True by apply Hall, list_elem_of_here.
  f_equal. apply IH. intros x Hx. apply Hall, list_elem_of_further, Hx.
Qed.

Lemma filter_filter_iff {A} (P Q R : A -> Prop)
    `{!forall x, Decision (P x), !forall x, Decision (Q x), !forall x, Decision (R x)}
    (l : list A) :
  (forall x, R x <-> P x /\ Q x) -> filter P (filter Q l) = filter R l.
Proof.
  intros Hiff. induction l as [|a l IH]; [reflexivity|].
  destruct (decide (Q a)) as [HQ|HQ].
  - rewrite (filter_cons_True Q) by exact HQ.
    destruct (decide (P a)) as [HP|HP].
    + rewrite (filter_cons_True P), (filter_cons_True R), IH;
        [reflexivity | apply Hiff; tauto | exact HP].
    + rewrite (filter_cons_False P), (filter_cons_False R), IH;
        [reflexivity | rewrite Hiff; tauto | exact HP].
  - rewrite (filter_cons_False Q), (filter_cons_False R), IH;
      [reflexivity | rewrite Hiff; tauto | exact HQ].
Qed.

Lemma first_occurrences_elem {A} `{EqDecision A} (l : list A) x :
  x ∈ first_occurrences l <-> x ∈ l.
Proof.
  induction l as [|a l IH]; cbn [first_occurrences]; [reflexivity|].
  rewrite !elem_of_cons, list_elem_of_filter, IH.
  destruct (decide (x = a)); tauto.
Qed.

Lemma filter_ne_fmap_inj_on {A B} `{EqDecision A, EqDecision B}
    (f : A -> B) (a : A) (l : list A) :
  (forall y, y ∈ l -> f y = f a -> y = a) ->
  filter (fun z => z <> f a) (f <$> l) = f <$> filter (fun y => y <> a) l.
Proof.
  induction l as [|b l IH]; intros Hinj; [reflexivity|].
  assert (Hl : filter (fun z => z <> f a) (f <$> l) = f <$> filter (fun y => y <> a) l).
  { apply IH. intros y Hy. apply Hinj, list_elem_of_further, Hy. }
  cbn [fmap list_fmap]. destruct (decide (b = a)) as [->|Hb].
  - rewrite (filter_cons_False (fun z => z <> f a)) by tauto.
    rewrite (filter_cons_False (fun y => y <> a)) by tauto. exact Hl.
  - rewrite (filter_cons_True (fun z => z <> f a)).
    + rewrite (filter_cons_True (fun y => y <> a)) by exact Hb.
      cbn [fmap list_fmap]. now rewrite Hl.
    + intros Hfb. apply Hb, Hinj; [apply list_elem_of_here | exact Hfb].
Qed.

Lemma first_occurrences_fmap_inj_on {A B} `{EqDecision A, EqDecision B}
    (f : A -> B) (l : list A) :
  (forall x y, x ∈ l -> y ∈ l -> f x = f y -> x = y) ->
  first_occurrences (f <$> l) = f <$> first_occurrences l.
Proof.
  induction l as [|a l IH]; intros Hinj; [reflexivity|].
  cbn [fmap list_fmap first_occurrences]. f_equal.
  rewrite IH.
  - apply filter_ne_fmap_inj_on. intros y Hy.
    rewrite first_occurrences_elem in Hy.
    apply Hinj; [apply list_elem_of_further, Hy | apply list_elem_of_here].
  - intros x y Hx Hy. apply Hinj; apply list_elem_of_further; assumption.
Qed.

Lemma fmap_inj_on_eq {A B} (f : A -> B) (l1 l2 : list A) :
  (forall x y, x ∈ l1 -> y ∈ l2 -> f x = f y -> x = y) ->
  f <$> l1 = f <$> l2 -> l1 = l2.
Proof.
  revert l2. induction l1 as [|a l1 IH]; intros [|b l2] Hinj Heq;
    try discriminate; [reflexivity|].
  cbn [fmap list_fmap] in Heq. injection Heq as Hab Heq.
  f_equal.
  - apply Hinj; [apply list_elem_of_here | apply list_elem_of_here | exact Hab].
  - apply IH; [|exact Heq]. intros x y Hx Hy.
    apply Hinj; apply list_elem_of_further; assumption.
Qed.

(** The keys of the dictionary are the keys of the Findings, each at the
    place of its first occurrence. *)
Lemma group_loop_keys l d :
  (fold_left group_issue l d).*1 =
    d.*1 ++ filter (fun k => k ∉ d.*1) (first_occurrences (pod_key <$> l)).
Proof.
  revert d. induction l as [|x l IH]; intros d;
    cbn [fold_left fmap list_fmap first_occurrences].
  - now rewrite app_nil_r.
  - rewrite IH, group_issue_keys.
    destruct (dict_contains (pod_key x) d) eqn:Hc.
    + apply dict_contains_keys in Hc. f_equal.
      rewrite (filter_cons_False (fun k => k ∉ d.*1)) by tauto.
      symmetry. apply filter_filter_iff. intros k. split; [|tauto].
      intros Hk. split; [exact Hk | congruence].
    + apply dict_contains_false in Hc.
      rewrite (filter_cons_True (fun k => k ∉ d.*1)) by exact Hc.
      rewrite <- app_assoc. cbn [app]. f_equal. f_equal.
      symmetry. apply filter_filter_iff. intros k.
      rewrite not_elem_of_app, list_elem_of_singleton. tauto.
Qed.

Lemma group_issues_keys_first l :
  (group_issues l).*1 = first_occurrences (pod_key <$> l).
Proof.
  unfold group_issues. rewrite group_loop_keys. cbn [fmap list_fmap app].
  apply filter_all. intros k _ Hk. inversion Hk.
Qed.

Lemma entries_key_of (d : dict PodInfo) :
  (forall k info, (k, info) ∈ d -> key_of (info_pod info) = k) ->
  key_of <$> (info_pod <$> dict_values d) = d.*1.
Proof.
  unfold dict_values. induction d as [|[k info] d IH]; intros Hkey; [reflexivity|].
  cbn [fmap list_fmap fst snd]. f_equal.
  - apply Hkey, list_elem_of_here.
  - apply IH. intros k' info' Hin. apply Hkey, list_elem_of_further, Hin.
Qed.

Lemma call_targets_total (infos : list PodInfo) :
  (forall info, info ∈ infos -> is_Some (call_of info)) ->
  call_target <$> omap call_of infos = info_pod <$> infos.
Proof.
  induction infos as [|info infos IH]; intros Hall; [reflexivity|].
  cbn [omap list_omap fmap list_fmap].
  destruct (Hall info (list_elem_of_here _ _)) as [c Hc]. rewrite Hc.
  cbn [fmap list_fmap]. f_equal.
  - apply call_of_Some in Hc. tauto.
  - apply IH. intros info' Hin. apply Hall, list_elem_of_further, Hin.
Qed.

(** With no [/] in the namespaces and a flag in every Finding, the pods of
    the dictionary are the pods of the Findings in the order of their first
    occurrence, and each gives rise to a patch call. *)
Lemma group_issues_pods_first l :
  Forall (fun i => slash_free (namespace i) = true) l ->
  info_pod <$> dict_values (group_issues l) = first_occurrences (issue_pod <$> l).
Proof.
  intros Hfree. rewrite Forall_forall in Hfree.
  apply (fmap_inj_on_eq key_of).
  - intros p q Hp Hq.
    apply list_elem_of_fmap in Hp. destruct Hp as (info & -> & Hinfo).
    unfold dict_values in Hinfo. apply list_elem_of_fmap in Hinfo.
    destruct Hinfo as ([k info'] & -> & Hin). cbn [snd].
    apply group_issues_entry in Hin. destruct Hin as (first & Hfirst & -> & _).
    apply key_group_elem in Hfirst. destruct Hfirst as [_ Hfirst].
    rewrite first_occurrences_elem in Hq. apply list_elem_of_fmap in Hq.
    destruct Hq as (i & -> & Hi).
    apply key_of_inj; [apply Hfree, Hfirst | apply Hfree, Hi].
  - rewrite entries_key_of by (intros k info; apply group_issues_key_of).
    rewrite group_issues_keys_first.
    replace (pod_key <$> l) with (key_of <$> (issue_pod <$> l))
      by (rewrite <- list_fmap_compose; reflexivity).
    apply first_occurrences_fmap_inj_on. intros p q Hp Hq.
    apply list_elem_of_fmap in Hp, Hq.
    destruct Hp as (i & -> & Hi), Hq as (j & -> & Hj).
    apply key_of_inj; [apply Hfree, Hi | apply Hfree, Hj].
Qed.

Lemma annotate_targets_in_order {K} (self : KubernetesPodChecker K) api issues w :
  v1_client self = Some api ->
  Forall (fun i => slash_free (namespace i) = true) issues ->
  Forall (fun i => missing_cpu_limit i || missing_memory_limit i = true) issues ->
  call_target <$> calls_since w (annotate_pods_with_issues self issues w).2 =
    first_occurrences (issue_pod <$> issues).
Proof.
  intros Hclient Hfree Hflag.
  rewrite (annotate_calls self api) by exact Hclient.
  rewrite call_targets_total; [apply group_issues_pods_first, Hfree|].
  intros info Hinfo. unfold dict_values in Hinfo.
  apply list_elem_of_fmap in Hinfo. destruct Hinfo as ([k info'] & -> & Hin).
  cbn [snd]. unfold call_of.
  destruct (annotation_value_flagged _ _ (group_issues_flagged _ _ _ Hflag Hin))
    as [v ->]. eauto.
Qed.

(** X7: given Findings with a flag each and no [/] in their namespaces, a
    connected checker patches the pods in the order in which each pod first
    appears among the Findings, each pod once. *)
Theorem X7_patch_calls_in_first_occurrence_order {K} (self : KubernetesPodChecker K)
    (api : CoreV1Api K) (issues : list ContainerLimitIssue) (w : World K) :
  v1_client self = Some api ->
  Forall (fun i => slash_free (namespace i) = true) issues ->
  Forall (fun i => missing_cpu_limit i || missing_memory_limit i = true) issues ->
  call_target <$> calls_since w (annotate_pods_with_issues self issues w).2 =
    first_occurrences (issue_pod <$> issues).
Proof. apply annotate_targets_in_order. Qed.

Lemma X7_patch_calls_in_first_occurrence_order_witness :
  call_target <$>
    calls_since lab_world (annotate_pods_with_issues (lab_checker []) two_pods lab_world).2 =
    first_occurrences (issue_pod <$> two_pods).
Proof.
  apply (X7_patch_calls_in_first_occurrence_order (lab_checker []) (lab_api [])
           two_pods lab_world).
  - reflexivity.
  - repeat constructor.
  - repeat constructor.
Defined.

Lemma annotate_step_success_bound {K} (self : KubernetesPodChecker K) acc info :
  (annotate_step self acc info).1.1 + length (patch_calls acc.2) <=
    acc.1.1 + length (patch_calls (annotate_step self acc info).2).
Proof.
  destruct acc as [[s f] w]. unfold annotate_step, annotate_pod.
  destruct (annotation_value _ _) as [v|]; cbn; [|lia].
  destruct (v1_client self) as [api|]; cbn; [|lia].
  destruct (patch_namespaced_pod api _ _ _ _) as [[] k']; cbn;
    rewrite length_app; cbn; lia.
Qed.

Lemma annotate_loop_success_bound {K} (self : KubernetesPodChecker K) infos acc :
  (fold_left (annotate_step self) infos acc).1.1 + length (patch_calls acc.2) <=
    acc.1.1 + length (patch_calls (fold_left (annotate_step self) infos acc).2).
Proof.
  revert acc. induction infos as [|info infos IH]; intros acc; cbn [fold_left]; [lia|].
  pose proof (IH (annotate_step self acc info)).
  pose proof (annotate_step_success_bound self acc info). lia.
Qed.

(** X8: a pod is counted as a success only if a patch call was made for it:
    the success count never exceeds the number of patch calls of the batch. *)
Theorem X8_successes_bounded_by_patch_calls {K} (self : KubernetesPodChecker K)
    (issues : list ContainerLimitIssue) (w : World K) :
  (annotate_pods_with_issues self issues w).1.1 <=
    length (calls_since w (annotate_pods_with_issues self issues w).2).
Proof.
  unfold calls_since, annotate_pods_with_issues. rewrite length_drop.
  pose proof (annotate_loop_success_bound self
                (dict_values (group_issues issues)) (0, 0, w)) as H.
  cbn [fst snd] in H. lia.
Qed.

Lemma annotate_loop_all_ok {K} (self : KubernetesPodChecker K) api infos s f w :
  v1_client self = Some api ->
  (forall k name ns body, (patch_namespaced_pod api k name ns body).1 = PatchOk) ->
  Forall (fun info => info_missing_cpu info || info_missing_memory info = true) infos ->
  (fold_left (annotate_step self) infos (s, f, w)).1 = (s + length infos, f).
Proof.
  intros Hclient Hok Hall. revert s w.
  induction Hall as [|info infos Hinfo _ IH]; intros s w; cbn [fold_left length].
  - cbn. f_equal. lia.
  - unfold annotate_step at 2, annotate_pod.
    destruct (annotation_value_flagged _ _ Hinfo) as [v ->]. rewrite Hclient.
    pose proof (Hok (cluster w) (info_pod_name info) (info_namespace info)
                    {[ "warning" := v ]}) as Hcall.
    destruct (patch_namespaced_pod api _ _ _ _) as [result k']. cbn in Hcall.
    subst result. rewrite IH. f_equal. lia.
Qed.

(** X9: on a cluster that accepts every patch, Findings with a flag each
    and no [/] in their namespaces give no failure and one success per
    distinct pod. *)
Theorem X9_all_patches_accepted {K} (self : KubernetesPodChecker K)
    (api : CoreV1Api K) (issues : list ContainerLimitIssue) (w : World K) :
  v1_client self = Some api ->
  (forall k name ns body, (patch_namespaced_pod api k name ns body).1 = PatchOk) ->
  Forall (fun i => slash_free (namespace i) = true) issues ->
  Forall (fun i => missing_cpu_limit i || missing_memory_limit i = true) issues ->
  (annotate_pods_with_issues self issues w).1 = (distinct_pods issues, 0).
Proof.
  intros Hclient Hok Hfree Hflag. unfold annotate_pods_with_issues.
  rewrite (annotate_loop_all_ok self api) by
    (try assumption; apply Forall_forall; intros info Hinfo;
     unfold dict_values in Hinfo; apply list_elem_of_fmap in Hinfo;
     destruct Hinfo as ([k info'] & -> & Hin);
     exact (group_issues_flagged _ _ _ Hflag Hin)).
  unfold dict_values. rewrite length_fmap, group_issues_length_pods by exact Hfree.
  reflexivity.
Qed.

Lemma X9_all_patches_accepted_witness :
  (annotate_pods_with_issues (lab_checker []) two_pods lab_world).1 =
    (distinct_pods two_pods, 0).
Proof.
  apply (X9_all_patches_accepted (lab_checker []) (lab_api []) two_pods lab_world).
  - reflexivity.
  - intros k name ns body. cbn. destruct (body !! "warning"); reflexivity.
  - repeat constructor.
  - repeat constructor.
Defined.

Lemma annotate_loop_unconnected {K} (self : KubernetesPodChecker K) infos acc :
  v1_client self = None ->
  (fold_left (annotate_step self) infos acc).2 = acc.2.
Proof.
  intros Hclient. revert acc.
  induction infos as [|info infos IH]; intros acc; cbn [fold_left]; [reflexivity|].
  rewrite IH, annotate_step_world. unfold annotate_pod. rewrite Hclient.
  destruct (annotation_value _ _); reflexivity.
Qed.

Lemma annotation_value_labels cpu memory v :
  annotation_value cpu memory = Some v -> v ∈ warning_labels.
Proof.
  unfold warning_labels.
  destruct cpu, memory; cbn; intros [= <-]; rewrite !elem_of_cons; auto.
Qed.

(** X10: whatever the Findings, every patch call of the batch carries a
    body whose annotations are the single key ["warning"] with one of the
    three labels, and addresses the pod of one of the Findings. *)
Theorem X10_patch_calls_only_set_warning {K} (self : KubernetesPodChecker K)
    (issues : list ContainerLimitIssue) (w : World K) (c : PatchCall) :
  c ∈ calls_since w (annotate_pods_with_issues self issues w).2 ->
  (exists v, call_annotations c = {[ "warning" := v ]} /\ v ∈ warning_labels) /\
  call_target c ∈ issue_pod <$> issues.
Proof.
  destruct (v1_client self) as [api|] eqn:Hclient.
  - rewrite (annotate_calls self api) by exact Hclient. intros Hc.
    apply call_of_elem in Hc. destruct Hc as (k & info & Hin & Hc).
    apply call_of_Some in Hc. destruct Hc as (-> & v & Hann & Hv). split.
    + exists v. split; [exact Hann | exact (annotation_value_labels _ _ _ Hv)].
    + apply group_issues_entry in Hin. destruct Hin as (first & Hfirst & -> & _).
      apply key_group_elem in Hfirst. apply list_elem_of_fmap_2. tauto.
  - unfold calls_since, annotate_pods_with_issues.
    rewrite annotate_loop_unconnected by exact Hclient. cbn [snd].
    rewrite drop_all. intros Hc. inversion Hc.
Qed.

Lemma X10_patch_calls_only_set_warning_witness :
  (exists v, call_annotations (mkCall "c" "a/b" {[ "warning" := "no-limits" ]}) =
               {[ "warning" := v ]} /\ v ∈ warning_labels) /\
  call_target (mkCall "c" "a/b" {[ "warning" := "no-limits" ]}) ∈ issue_pod <$> slash_issues.
Proof.
  apply (X10_patch_calls_only_set_warning (lab_checker []) slash_issues lab_world).
  assert (Hcalls :
    calls_since lab_world
      (annotate_pods_with_issues (lab_checker []) slash_issues lab_world).2 =
    [mkCall "c" "a/b" {[ "warning" := "no-limits" ]}]) by (vm_compute; reflexivity).
  rewrite Hcalls. apply list_elem_of_here.
Defined.

Lemma calls_since_same {K} (w : World K) : calls_since w w = [].
Proof. unfold calls_since. apply drop_all. Qed.

Lemma evaluate_pods_slash_free items :
  Forall (fun pod => slash_free (V1.meta_namespace (V1.metadata pod)) = true) items ->
  Forall (fun i => slash_free (namespace i) = true) (evaluate_pods items).
Proof.
  intros Hfree. rewrite Forall_forall in Hfree. apply Forall_forall. intros f Hf.
  apply evaluate_pods_elem in Hf. destruct Hf as (pod & container & Hpod & _ & Hf).
  apply finding_of_flags in Hf. subst f. cbn. apply Hfree, Hpod.
Qed.

(** X11: a run with [--annotate] on a reachable cluster patches exactly the
    pods that have a Finding, each once, in the order in which the evaluator
    reports them, provided no namespace of the snapshot contains [/]. *)
Theorem X11_main_patches_reported_pods {K} (fmt : string) (ns : option string)
    (config : Config K) (self : KubernetesPodChecker K) (api : CoreV1Api K)
    (items : list V1.Pod) (w : World K) :
  connect config (mkChecker None) = (true, self) ->
  v1_client self = Some api ->
  list_pods api ns (cluster w) = ListOk items ->
  Forall (fun pod => slash_free (V1.meta_namespace (V1.metadata pod)) = true) items ->
  call_target <$> calls_since w (world (main (mkArgs fmt ns true) config w)) =
    first_occurrences (issue_pod <$> evaluate_pods items).
Proof.
  intros Hconnect Hclient Hlist Hfree. unfold main. rewrite Hconnect.
  cbn [negb namespace_arg annotate output andb].
  assert (Hissues : get_containers_with_missing_limits self ns (cluster w) =
                    evaluate_pods items).
  { unfold get_containers_with_missing_limits. now rewrite Hclient, Hlist. }
  rewrite Hissues. case_bool_decide as Hempty; cbn [negb world].
  - rewrite Hempty, calls_since_same. reflexivity.
  - pose proof (annotate_targets_in_order self api (evaluate_pods items) w Hclient
                  (evaluate_pods_slash_free items Hfree)
                  (evaluate_pods_flagged items)) as Horder.
    destruct (annotate_pods_with_issues self (evaluate_pods items) w)
      as [[s f] w'] eqn:Hrun.
    exact Horder.
Qed.

Lemma X11_main_patches_reported_pods_witness :
  call_target <$>
    calls_since lab_world (world (main (mkArgs "json" None true) (stocked [web_1]) lab_world)) =
    first_occurrences (issue_pod <$> evaluate_pods [web_1]).
Proof.
  apply (X11_main_patches_reported_pods "json" None (stocked [web_1])
           (mkChecker (Some (stocked_api [web_1]))) (stocked_api [web_1])
           [web_1] lab_world).
  - reflexivity.
  - reflexivity.
  - reflexivity.
  - repeat constructor.
Defined.

(** ** Further properties of the reporters *)

Lemma max_len_loop f (issues : list ContainerLimitIssue) acc :
  acc <= fold_left (fun m issue => Nat.max m (String.length (f issue))) issues acc /\
  forall issue, issue ∈ issues ->
    String.length (f issue) <=
      fold_left (fun m issue => Nat.max m (String.length (f issue))) issues acc.
Proof.
  revert acc. induction issues as [|x issues IH]; intros acc; cbn [fold_left].
  - split; [lia | intros issue H; inversion H].
  - destruct (IH (Nat.max acc (String.length (f x)))) as [Hacc Hall].
    split; [lia|]. intros issue Hin. apply elem_of_cons in Hin.
    destruct Hin as [->|Hin]; [lia | apply Hall, Hin].
Qed.

Lemma max_len_bound f (issues : list ContainerLimitIssue) issue :
  issue ∈ issues -> String.length (f issue) <= max_len f issues.
Proof. apply max_len_loop. Qed.

Lemma ljust_length_fit val width :
  String.length val <= width -> String.length (ljust val width) = width.
Proof. intros H. destruct (ljust_spec val width) as [_ ->]. lia. Qed.

Lemma table_line_length w0 w1 w2 w3 w4 v0 v1 v2 v3 v4 :
  String.length v0 <= w0 -> String.length v1 <= w1 -> String.length v2 <= w2 ->
  String.length v3 <= w3 -> String.length v4 <= w4 ->
  String.length (OutputFormatter.table_line [w0; w1; w2; w3; w4] [v0; v1; v2; v3; v4]) =
    w0 + w1 + w2 + w3 + w4 + 16.
Proof.
  intros H0 H1 H2 H3 H4. unfold OutputFormatter.table_line.
  cbn [imap str_join nth compose].
  rewrite !append_length, !ljust_length_fit by assumption. cbn. lia.
Qed.

Lemma separator_length w0 w1 w2 w3 w4 :
  String.length (OutputFormatter.separator [w0; w1; w2; w3; w4]) =
    w0 + w1 + w2 + w3 + w4 + 16.
Proof.
  unfold OutputFormatter.separator. cbn [map str_join].
  rewrite !append_length, !str_repeat_length. cbn. lia.
Qed.

(** X12: the table of a non-empty list of Findings has four lines more than
    there are Findings, and all its lines have the same length: the sum of
    the five column widths plus sixteen, so the borders line up. *)
Theorem X12_table_lines_aligned (issues : list ContainerLimitIssue) (line : string) :
  line ∈ OutputFormatter.table_lines issues ->
  String.length line = list_sum (OutputFormatter.col_widths issues) + 16 /\
  length (OutputFormatter.table_lines issues) = length issues + 4.
Proof.
  unfold OutputFormatter.table_lines. rewrite fold_left_append_each.
  cbn [app]. intros Hline. split.
  - unfold OutputFormatter.col_widths in *. cbn [nth OutputFormatter.headers] in *.
    set (w0 := Nat.max _ (max_len namespace issues)) in *.
    set (w1 := Nat.max _ (max_len pod_name issues)) in *.
    set (w2 := Nat.max _ (max_len container_name issues)) in *.
    set (w3 := String.length "MISSING CPU") in *.
    set (w4 := String.length "MISSING MEMORY") in *.
    assert (Hsum : list_sum [w0; w1; w2; w3; w4] + 16 = w0 + w1 + w2 + w3 + w4 + 16)
      by (cbn; lia).
    rewrite Hsum.
    rewrite !elem_of_app, !list_elem_of_singleton, list_elem_of_fmap, elem_of_nil in Hline.
    destruct Hline as [[[[[[] | ->] | ->] | ->] | (issue & -> & Hin)] | ->];
      try apply separator_length.
    + unfold OutputFormatter.headers.
      apply table_line_length; subst w0 w1 w2 w3 w4; cbn; lia.
    + pose proof (max_len_bound namespace issues issue Hin).
      pose proof (max_len_bound pod_name issues issue Hin).
      pose proof (max_len_bound container_name issues issue Hin).
      unfold OutputFormatter.table_cells.
      apply table_line_length; subst w0 w1 w2 w3 w4; try lia;
        [destruct (missing_cpu_limit issue) | destruct (missing_memory_limit issue)];
        cbn; lia.
  - rewrite !length_app, length_fmap. cbn [length]. lia.
Qed.

Lemma X12_table_lines_aligned_witness :
  String.length (OutputFormatter.separator (OutputFormatter.col_widths two_pods)) =
    list_sum (OutputFormatter.col_widths two_pods) + 16 /\
  length (OutputFormatter.table_lines two_pods) = length two_pods + 4.
Proof.
  apply (X12_table_lines_aligned two_pods).
  unfold OutputFormatter.table_lines. rewrite fold_left_append_each.
  cbn [app]. apply list_elem_of_here.
Defined.

Lemma expect_app prefix s : expect prefix (prefix +:+ s) = Some s.
Proof.
  induction prefix as [|p prefix IH]; [reflexivity|].
  rewrite append_cons. cbn [expect]. now rewrite Ascii.eqb_refl.
Qed.

Lemma read_until_quote_app s rest :
  quote_free s = true ->
  csv_reader.read_until_quote (s +:+ dq +:+ rest) = Some (s, rest).
Proof.
  induction s as [|c s IH]; intros Hfree; [reflexivity|].
  cbn [quote_free] in Hfree. apply andb_true_iff in Hfree.
  destruct Hfree as [Hc Hs]. apply negb_true_iff in Hc.
  rewrite append_cons. cbn [csv_reader.read_until_quote].
  now rewrite Hc, IH.
Qed.

Lemma read_quoted_app s rest :
  quote_free s = true ->
  csv_reader.read_quoted (dq +:+ s +:+ dq +:+ rest) = Some (s, rest).
Proof.
  intros Hfree. unfold csv_reader.read_quoted.
  rewrite expect_app. apply read_until_quote_app, Hfree.
Qed.

Lemma str_of_bool_quote_free b : quote_free (str_of_bool b) = true.
Proof. destruct b; reflexivity. Qed.

(** X13: a data line of the delimited report reads back, field by field, as
    the five values of its Finding, provided the three names contain no
    double quote. *)
Theorem X13_csv_line_reads_back (issue : ContainerLimitIssue) :
  quote_free (namespace issue) = true ->
  quote_free (pod_name issue) = true ->
  quote_free (container_name issue) = true ->
  csv_reader.read_line (OutputFormatter.csv_line issue) = Some (logical issue).
Proof.
  intros Hns Hpod Hcontainer.
  unfold csv_reader.read_line, OutputFormatter.csv_line.
  replace (dq +:+ str_of_bool (missing_memory_limit issue) +:+ dq)
    with (dq +:+ str_of_bool (missing_memory_limit issue) +:+ dq +:+ "")
    by reflexivity.
  cbn [csv_reader.read_fields].
  rewrite read_quoted_app, expect_app by exact Hns.
  rewrite read_quoted_app, expect_app by exact Hpod.
  rewrite read_quoted_app, expect_app by exact Hcontainer.
  rewrite read_quoted_app, expect_app by apply str_of_bool_quote_free.
  rewrite read_quoted_app by apply str_of_bool_quote_free.
  rewrite bool_decide_eq_true_2 by reflexivity.
  destruct issue as [ns pod container [] []]; reflexivity.
Qed.

Lemma X13_csv_line_reads_back_witness :
  csv_reader.read_line (OutputFormatter.csv_line sidecar_issue) = Some (logical sidecar_issue).
Proof.
  apply (X13_csv_line_reads_back sidecar_issue); reflexivity.
Defined.

Lemma read_string_body_escape_char c tail :
  json_reader.read_string_body (json.escape_char c +:+ tail) =
    match json_reader.read_string_body tail with
    | Some (str, rest) => Some (String c str, rest)
    | None => None
    end.
Proof.
  destruct c as [[] [] [] [] [] [] [] []]; reflexivity.
Qed.

Lemma read_string_body_escape s rest :
  json_reader.read_string_body (json.escape s +:+ dq +:+ rest) = Some (s, rest).
Proof.
  induction s as [|c s IH]; [reflexivity|].
  cbn [json.escape]. now rewrite append_assoc, read_string_body_escape_char, IH.
Qed.

Lemma read_string_encode s rest :
  json_reader.read_string (json.encode_string s +:+ rest) = Some (s, rest).
Proof.
  unfold json_reader.read_string, json.encode_string.
  rewrite !append_assoc, expect_app. apply read_string_body_escape.
Qed.

Lemma read_bool_encode (b : bool) rest :
  json_reader.read_bool ((if b then "true" else "false") +:+ rest) = Some (b, rest).
Proof. destruct b; reflexivity. Qed.

Lemma encode_record issue rest :
  json.encode 1 (asdict issue) +:+ rest =
    ("{" +:+ json_reader.field_start "namespace") +:+
    json.encode_string (namespace issue) +:+
    ("," +:+ json_reader.field_start "pod_name") +:+
    json.encode_string (pod_name issue) +:+
    ("," +:+ json_reader.field_start "container_name") +:+
    json.encode_string (container_name issue) +:+
    ("," +:+ json_reader.field_start "missing_cpu_limit") +:+
    (if missing_cpu_limit issue then "true" else "false") +:+
    ("," +:+ json_reader.field_start "missing_memory_limit") +:+
    (if missing_memory_limit issue then "true" else "false") +:+
    (nl +:+ "  }") +:+ rest.
Proof.
  unfold asdict.
  cbn [json.encode map str_join fst snd].
  unfold json_reader.field_start. rewrite !append_assoc. reflexivity.
Qed.

Lemma read_record_encode issue rest :
  json_reader.read_record (json.encode 1 (asdict issue) +:+ rest) = Some (issue, rest).
Proof.
  rewrite encode_record. unfold json_reader.read_record.
  rewrite expect_app, read_string_encode.
  rewrite expect_app, read_string_encode.
  rewrite expect_app, read_string_encode.
  rewrite expect_app, read_bool_encode.
  rewrite expect_app, read_bool_encode.
  rewrite expect_app. destruct issue; reflexivity.
Qed.


Lemma str_join_cons sep a b (parts : list string) :
  str_join sep (a :: b :: parts) = a +:+ sep +:+ str_join sep (b :: parts).
Proof. reflexivity. Qed.

Lemma read_records_encode (issues : list ContainerLimitIssue) issue fuel :
  length issues < fuel ->
  json_reader.read_records fuel
    (str_join ("," +:+ nl +:+ "  ")
       (json.encode 1 (asdict issue) :: map (json.encode 1) (map asdict issues))
     +:+ nl +:+ "]") =
    Some (issue :: issues).
Proof.
  revert issue fuel. induction issues as [|next issues IH]; intros issue fuel Hfuel;
    (destruct fuel as [|fuel]; [cbn [length] in Hfuel; lia|]);
    cbn [map json_reader.read_records].
  - cbn [str_join]. rewrite read_record_encode. reflexivity.
  - rewrite str_join_cons.
    rewrite append_assoc, read_record_encode, append_assoc, expect_app.
    rewrite IH by (cbn [length] in Hfuel; lia). reflexivity.
Qed.

Lemma format_json_cons issue issues :
  OutputFormatter.format_json (issue :: issues) =
    ("[" +:+ nl +:+ "  ") +:+
    str_join ("," +:+ nl +:+ "  ")
      (json.encode 1 (asdict issue) :: map (json.encode 1) (map asdict issues))
    +:+ nl +:+ "]".
Proof.
  unfold OutputFormatter.format_json, json.dumps.
  cbn [map json.encode]. rewrite !append_assoc. reflexivity.
Qed.

Lemma str_join_length_bound sep (parts : list string) :
  Forall (fun part => 1 <= String.length part) parts ->
  length parts <= String.length (str_join sep parts).
Proof.
  induction 1 as [|part parts Hpart _ IH]; [cbn; lia|].
  destruct parts as [|part' parts]; cbn [str_join length] in *; [lia|].
  rewrite !append_length. lia.
Qed.

Lemma encode_record_nonempty issue : 1 <= String.length (json.encode 1 (asdict issue)).
Proof.
  unfold asdict. cbn [json.encode]. rewrite append_length. cbn. lia.
Qed.

Lemma loads_format_json issues :
  json_reader.loads (OutputFormatter.format_json issues) = Some issues.
Proof.
  destruct issues as [|issue issues]; [reflexivity|].
  unfold json_reader.loads. rewrite bool_decide_eq_false_2.
  - assert (Hfuel : length issues <
                    String.length (OutputFormatter.format_json (issue :: issues))).
    { rewrite format_json_cons, !append_length.
      pose proof (str_join_length_bound ("," +:+ nl +:+ "  ")
        (json.encode 1 (asdict issue) :: map (json.encode 1) (map asdict issues))) as Hlen.
      cbn [length] in Hlen. rewrite !length_map in Hlen.
      assert (Hparts : Forall (fun part => 1 <= String.length part)
        (json.encode 1 (asdict issue) :: map (json.encode 1) (map asdict issues))).
      { constructor; [apply encode_record_nonempty|].
        apply Forall_forall. intros part Hpart.
        apply list_elem_of_In, in_map_iff in Hpart. destruct Hpart as (v & <- & Hv).
        apply in_map_iff in Hv. destruct Hv as (i & <- & _).
        apply encode_record_nonempty. }
      specialize (Hlen Hparts). lia. }
    revert Hfuel.
    generalize (String.length (OutputFormatter.format_json (issue :: issues))) as fuel.
    intros fuel Hfuel. rewrite format_json_cons, expect_app.
    apply read_records_encode, Hfuel.
  - rewrite format_json_cons. discriminate.
Qed.

(** X14: the structured report reads back as the list of Findings it was
    made from, whatever characters the names contain. *)
Theorem X14_json_report_reads_back (issues : list ContainerLimitIssue) :
  json_reader.loads (OutputFormatter.format_json issues) = Some issues.
Proof. apply loads_format_json. Qed.

(** X15: two lists of Findings with the same structured report are the same
    list: the structured report loses nothing. *)
Theorem X15_format_json_injective (issues1 issues2 : list ContainerLimitIssue) :
  OutputFormatter.format_json issues1 = OutputFormatter.format_json issues2 ->
  issues1 = issues2.
Proof.
  intros Heq. pose proof (loads_format_json issues1) as H1.
  rewrite Heq, loads_format_json in H1. congruence.
Qed.

Lemma X15_format_json_injective_witness : two_pods = two_pods.
Proof.
  apply (X15_format_json_injective two_pods two_pods). reflexivity.
Defined.

Lemma append_empty_r s : s +:+ "" = s.
Proof.
  induction s as [|c s IH]; [reflexivity|]. now rewrite append_cons, IH.
Qed.

Lemma plain_app s1 s2 : plain (s1 +:+ s2) = plain s1 && plain s2.
Proof.
  induction s1 as [|c s1 IH]; [reflexivity|].
  rewrite append_cons. cbn [plain]. now rewrite IH, andb_assoc.
Qed.

Lemma plain_escape_char c : plain (json.escape_char c) = true.
Proof. destruct c as [[] [] [] [] [] [] [] []]; reflexivity. Qed.

Lemma plain_escape s : plain (json.escape s) = true.
Proof.
  induction s as [|c s IH]; [reflexivity|].
  cbn [json.escape]. now rewrite plain_app, plain_escape_char, IH.
Qed.

Lemma plain_encode_string s : plain (json.encode_string s) = true.
Proof.
  unfold json.encode_string. now rewrite !plain_app, plain_escape.
Qed.

Lemma plain_record issue : plain (json.encode 1 (asdict issue)) = true.
Proof.
  rewrite <- (append_empty_r (json.encode 1 (asdict issue))), encode_record.
  rewrite !plain_app, !plain_encode_string.
  destruct (missing_cpu_limit issue), (missing_memory_limit issue); reflexivity.
Qed.

Lemma plain_join sep (parts : list string) :
  plain sep = true -> Forall (fun part => plain part = true) parts ->
  plain (str_join sep parts) = true.
Proof.
  intros Hsep. induction 1 as [|part parts Hpart _ IH]; [reflexivity|].
  destruct parts as [|part' parts]; [exact Hpart|].
  rewrite str_join_cons, !plain_app, Hpart, Hsep, IH. reflexivity.
Qed.

(** X16: the structured report is plain ASCII: it consists of printable
    characters and line breaks only, whatever characters the names
    contain. *)
Theorem X16_json_report_is_plain_ascii (issues : list ContainerLimitIssue) :
  plain (OutputFormatter.format_json issues) = true.
Proof.
  destruct issues as [|issue issues]; [reflexivity|].
  rewrite format_json_cons, !plain_app, plain_join; [reflexivity | reflexivity |].
  constructor; [apply plain_record|].
  apply Forall_forall. intros part Hpart.
  apply list_elem_of_In, in_map_iff in Hpart. destruct Hpart as (v & <- & Hv).
  apply in_map_iff in Hv. destruct Hv as (i & <- & _). apply plain_record.
Qed.

(** ** Further properties of single steps *)



(** ** Reporters: reading the rendered reports back *)

Lemma lacks_char_app n s1 s2 :
  lacks_char n (s1 +:+ s2) = lacks_char n s1 && lacks_char n s2.
Proof.
  induction s1 as [|c s1 IH]; [reflexivity|].
  rewrite append_cons. cbn [lacks_char]. now rewrite IH, andb_assoc.
Qed.

Lemma lacks_char_repeat n c k :
  lacks_char n c = true -> lacks_char n (str_repeat c k) = true.
Proof.
  intros Hc. induction k as [|k IH]; [reflexivity|].
  cbn [str_repeat]. now rewrite lacks_char_app, Hc, IH.
Qed.

Lemma lacks_newline_ljust v w : lacks_char 10 (ljust v w) = lacks_char 10 v.
Proof.
  unfold ljust. rewrite lacks_char_app, lacks_char_repeat by reflexivity.
  apply andb_true_r.
Qed.

Lemma quote_free_lacks s : quote_free s = lacks_char 34 s.
Proof. induction s as [|c s IH]; [reflexivity|]. cbn. now rewrite IH. Qed.

Lemma plain_issue_parts issue :
  plain_issue issue = true ->
  (lacks_char 32 (namespace issue) = true /\ lacks_char 10 (namespace issue) = true /\
   quote_free (namespace issue) = true) /\
  (lacks_char 32 (pod_name issue) = true /\ lacks_char 10 (pod_name issue) = true /\
   quote_free (pod_name issue) = true) /\
  (lacks_char 32 (container_name issue) = true /\
   lacks_char 10 (container_name issue) = true /\
   quote_free (container_name issue) = true).
Proof.
  unfold plain_issue, plain_name. rewrite !quote_free_lacks, !andb_true_iff. tauto.
Qed.

Lemma split_lines_app s rest :
  lacks_char 10 s = true -> split_lines (s +:+ nl +:+ rest) = s :: split_lines rest.
Proof.
  induction s as [|c s IH]; intros Hs; [reflexivity|].
  cbn [lacks_char] in Hs. apply andb_true_iff in Hs. destruct Hs as [Hc Hs].
  apply negb_true_iff in Hc.
  rewrite append_cons. cbn [split_lines]. now rewrite Hc, IH.
Qed.

Lemma split_lines_single s : lacks_char 10 s = true -> split_lines s = [s].
Proof.
  induction s as [|c s IH]; intros Hs; [reflexivity|].
  cbn [lacks_char] in Hs. apply andb_true_iff in Hs. destruct Hs as [Hc Hs].
  apply negb_true_iff in Hc. cbn [split_lines]. now rewrite Hc, IH.
Qed.

Lemma split_lines_join line (lines : list string) :
  Forall (fun l => lacks_char 10 l = true) (line :: lines) ->
  split_lines (str_join nl (line :: lines)) = line :: lines.
Proof.
  revert line. induction lines as [|next lines IH]; intros line Hall.
  - apply split_lines_single. now inversion Hall.
  - rewrite str_join_cons. inversion Hall as [|? ? Hline Hrest]; subst.
    rewrite split_lines_app by exact Hline. f_equal. apply IH, Hrest.
Qed.

(** *** The table *)

Lemma read_word_app v rest :
  lacks_char 32 v = true ->
  table_reader.read_word (v +:+ String " " rest) = (v, String " " rest).
Proof.
  induction v as [|c v IH]; intros Hv; [reflexivity|].
  cbn [lacks_char] in Hv. apply andb_true_iff in Hv. destruct Hv as [Hc Hv].
  apply negb_true_iff in Hc.
  rewrite append_cons. cbn [table_reader.read_word]. now rewrite Hc, IH.
Qed.

Lemma skip_spaces_repeat n rest :
  table_reader.skip_spaces (str_repeat " " n +:+ String "|" rest) = String "|" rest.
Proof.
  induction n as [|n IH]; [reflexivity|].
  cbn [str_repeat]. rewrite append_assoc. exact IH.
Qed.

Lemma spaces_shift n rest :
  str_repeat " " n +:+ String " " rest = String " " (str_repeat " " n +:+ rest).
Proof.
  induction n as [|n IH]; [reflexivity|].
  cbn [str_repeat]. rewrite !append_assoc, IH. reflexivity.
Qed.

Lemma read_cell_ljust v w rest :
  lacks_char 32 v = true ->
  table_reader.read_cell (" " +:+ ljust v w +:+ " |" +:+ rest) = Some (v, rest).
Proof.
  intros Hv. unfold table_reader.read_cell, ljust.
  rewrite expect_app, append_assoc.
  change (" |" +:+ rest) with (String " " (String "|" rest)).
  rewrite spaces_shift, read_word_app by exact Hv.
  cbn [table_reader.skip_spaces Nat.eqb nat_of_ascii].
  change (table_reader.skip_spaces (String " " ?x)) with (table_reader.skip_spaces x).
  rewrite skip_spaces_repeat. reflexivity.
Qed.

Lemma table_line_cells w0 w1 w2 w3 w4 v0 v1 v2 v3 v4 :
  OutputFormatter.table_line [w0; w1; w2; w3; w4] [v0; v1; v2; v3; v4] =
    "|" +:+ (" " +:+ ljust v0 w0 +:+ " |" +:+
             " " +:+ ljust v1 w1 +:+ " |" +:+
             " " +:+ ljust v2 w2 +:+ " |" +:+
             " " +:+ ljust v3 w3 +:+ " |" +:+
             " " +:+ ljust v4 w4 +:+ " |" +:+ "").
Proof.
  unfold OutputFormatter.table_line. cbn [imap str_join nth compose].
  rewrite !append_assoc. reflexivity.
Qed.

Lemma yes_no_space_free (b : bool) : lacks_char 32 (if b then "YES" else "NO") = true.
Proof. destruct b; reflexivity. Qed.

Lemma read_row_table_line w0 w1 w2 w3 w4 issue :
  plain_issue issue = true ->
  table_reader.read_row
    (OutputFormatter.table_line [w0; w1; w2; w3; w4] (OutputFormatter.table_cells issue)) =
    Some (logical issue).
Proof.
  intros Hplain. apply plain_issue_parts in Hplain.
  destruct Hplain as ((Hns & _) & (Hpod & _) & (Hcontainer & _)).
  unfold table_reader.read_row, OutputFormatter.table_cells.
  rewrite table_line_cells, expect_app. cbn [table_reader.read_cells].
  rewrite read_cell_ljust by exact Hns.
  rewrite read_cell_ljust by exact Hpod.
  rewrite read_cell_ljust by exact Hcontainer.
  rewrite read_cell_ljust by apply yes_no_space_free.
  rewrite read_cell_ljust by apply yes_no_space_free.
  rewrite bool_decide_eq_true_2 by reflexivity.
  destruct issue as [ns pod container [] []]; reflexivity.
Qed.

Lemma read_rows_cons line next (rest : list string) :
  table_reader.read_rows (line :: next :: rest) =
    match table_reader.read_row line, table_reader.read_rows (next :: rest) with
    | Some values, Some others => Some (values :: others)
    | _, _ => None
    end.
Proof. reflexivity. Qed.

Lemma read_rows_table_lines w0 w1 w2 w3 w4 (issues : list ContainerLimitIssue) closing :
  Forall (fun i => plain_issue i = true) issues ->
  table_reader.read_rows
    (((fun issue => OutputFormatter.table_line [w0; w1; w2; w3; w4]
                      (OutputFormatter.table_cells issue)) <$> issues) ++ [closing]) =
    Some (logical <$> issues).
Proof.
  induction 1 as [|issue issues Hissue _ IH]; [reflexivity|].
  cbn [fmap list_fmap]. rewrite <- app_comm_cons.
  remember (((fun issue => OutputFormatter.table_line [w0; w1; w2; w3; w4]
                (OutputFormatter.table_cells issue)) <$> issues) ++ [closing])
    as body eqn:Hbody.
  destruct body as [|next rest]; [discriminate IH|].
  rewrite read_rows_cons, IH, read_row_table_line by exact Hissue. reflexivity.
Qed.

Lemma table_lines_layout issues :
  OutputFormatter.table_lines issues =
    [ OutputFormatter.separator (OutputFormatter.col_widths issues);
      OutputFormatter.table_line (OutputFormatter.col_widths issues) OutputFormatter.headers;
      OutputFormatter.separator (OutputFormatter.col_widths issues) ] ++
    ((fun issue => OutputFormatter.table_line (OutputFormatter.col_widths issues)
                     (OutputFormatter.table_cells issue)) <$> issues) ++
    [ OutputFormatter.separator (OutputFormatter.col_widths issues) ].
Proof.
  unfold OutputFormatter.table_lines. rewrite fold_left_append_each.
  cbn [app]. reflexivity.
Qed.

Lemma separator_newline_free w0 w1 w2 w3 w4 :
  lacks_char 10 (OutputFormatter.separator [w0; w1; w2; w3; w4]) = true.
Proof.
  unfold OutputFormatter.separator. cbn [map str_join].
  rewrite !lacks_char_app, !lacks_char_repeat by reflexivity. reflexivity.
Qed.

Lemma table_line_newline_free w0 w1 w2 w3 w4 v0 v1 v2 v3 v4 :
  lacks_char 10 v0 = true -> lacks_char 10 v1 = true -> lacks_char 10 v2 = true ->
  lacks_char 10 v3 = true -> lacks_char 10 v4 = true ->
  lacks_char 10 (OutputFormatter.table_line [w0; w1; w2; w3; w4] [v0; v1; v2; v3; v4]) = true.
Proof.
  intros H0 H1 H2 H3 H4.
  rewrite table_line_cells, !lacks_char_app, !lacks_newline_ljust.
  rewrite H0, H1, H2, H3, H4. reflexivity.
Qed.

Lemma yes_no_newline_free (b : bool) : lacks_char 10 (if b then "YES" else "NO") = true.
Proof. destruct b; reflexivity. Qed.

Lemma border_is_not_the_sentence (s1 s2 : string) :
  ("+" +:+ s1) +:+ s2 <> "No containers with missing resource limits found.".
Proof. rewrite !append_cons. discriminate. Qed.

Lemma read_format_table (issues : list ContainerLimitIssue) :
  Forall (fun i => plain_issue i = true) issues ->
  table_reader.read (OutputFormatter.format_table issues) = Some (logical <$> issues).
Proof.
  intros Hplain. destruct issues as [|issue issues]; [reflexivity|].
  unfold OutputFormatter.format_table, table_reader.read.
  rewrite table_lines_layout.
  unfold OutputFormatter.col_widths.
  set (w0 := Nat.max _ (max_len namespace (issue :: issues))).
  set (w1 := Nat.max _ (max_len pod_name (issue :: issues))).
  set (w2 := Nat.max _ (max_len container_name (issue :: issues))).
  set (w3 := String.length (nth 3 OutputFormatter.headers "")).
  set (w4 := String.length (nth 4 OutputFormatter.headers "")).
  rewrite <- !app_comm_cons, app_nil_l.
  rewrite bool_decide_eq_false_2.
  - rewrite split_lines_join; [apply read_rows_table_lines, Hplain|].
    apply Forall_cons_2; [apply separator_newline_free|].
    apply Forall_cons_2; [apply table_line_newline_free; reflexivity|].
    apply Forall_cons_2; [apply separator_newline_free|].
    apply Forall_app_2.
    + apply Forall_fmap. eapply Forall_impl; [exact Hplain|].
      intros i Hi. apply plain_issue_parts in Hi.
      destruct Hi as ((_ & Hns & _) & (_ & Hpod & _) & (_ & Hcontainer & _)).
      cbn. unfold OutputFormatter.table_cells.
      apply table_line_newline_free; try assumption; apply yes_no_newline_free.
    + repeat constructor. apply separator_newline_free.
  - rewrite str_join_cons. unfold OutputFormatter.separator.
    rewrite append_assoc. apply border_is_not_the_sentence.
Qed.

(** *** The delimited report *)

Lemma read_line_csv_line issue :
  quote_free (namespace issue) = true ->
  quote_free (pod_name issue) = true ->
  quote_free (container_name issue) = true ->
  csv_reader.read_line (OutputFormatter.csv_line issue) = Some (logical issue).
Proof.
  intros Hns Hpod Hcontainer.
  unfold csv_reader.read_line, OutputFormatter.csv_line.
  replace (dq +:+ str_of_bool (missing_memory_limit issue) +:+ dq)
    with (dq +:+ str_of_bool (missing_memory_limit issue) +:+ dq +:+ "")
    by reflexivity.
  cbn [csv_reader.read_fields].
  rewrite read_quoted_app, expect_app by exact Hns.
  rewrite read_quoted_app, expect_app by exact Hpod.
  rewrite read_quoted_app, expect_app by exact Hcontainer.
  rewrite read_quoted_app, expect_app by apply str_of_bool_quote_free.
  rewrite read_quoted_app by apply str_of_bool_quote_free.
  rewrite bool_decide_eq_true_2 by reflexivity.
  destruct issue as [ns pod container [] []]; reflexivity.
Qed.

Lemma read_lines_csv_lines (issues : list ContainerLimitIssue) :
  Forall (fun i => plain_issue i = true) issues ->
  csv_reader.read_lines (OutputFormatter.csv_line <$> issues) = Some (logical <$> issues).
Proof.
  induction 1 as [|issue issues Hissue _ IH]; [reflexivity|].
  cbn [fmap list_fmap csv_reader.read_lines]. rewrite IH.
  apply plain_issue_parts in Hissue.
  destruct Hissue as ((_ & _ & Hns) & (_ & _ & Hpod) & (_ & _ & Hcontainer)).
  now rewrite read_line_csv_line.
Qed.

Lemma str_of_bool_newline_free b : lacks_char 10 (str_of_bool b) = true.
Proof. destruct b; reflexivity. Qed.

Lemma csv_line_newline_free issue :
  plain_issue issue = true -> lacks_char 10 (OutputFormatter.csv_line issue) = true.
Proof.
  intros Hplain. apply plain_issue_parts in Hplain.
  destruct Hplain as ((_ & Hns & _) & (_ & Hpod & _) & (_ & Hcontainer & _)).
  unfold OutputFormatter.csv_line.
  rewrite !lacks_char_app, Hns, Hpod, Hcontainer, !str_of_bool_newline_free.
  reflexivity.
Qed.

Lemma csv_lines_layout issues :
  OutputFormatter.csv_lines issues =
    OutputFormatter.csv_header :: (OutputFormatter.csv_line <$> issues).
Proof.
  unfold OutputFormatter.csv_lines. now rewrite fold_left_append_each.
Qed.

Lemma read_format_csv (issues : list ContainerLimitIssue) :
  Forall (fun i => plain_issue i = true) issues ->
  csv_reader.read (OutputFormatter.format_csv issues) = Some (logical <$> issues).
Proof.
  intros Hplain. unfold csv_reader.read, OutputFormatter.format_csv.
  rewrite csv_lines_layout, split_lines_join.
  - rewrite bool_decide_eq_true_2 by reflexivity.
    apply read_lines_csv_lines, Hplain.
  - apply Forall_cons_2; [reflexivity|].
    apply Forall_fmap. eapply Forall_impl; [exact Hplain|].
    intros i Hi. apply csv_line_newline_free, Hi.
Qed.

(** ** Reporters: the same values in the three reports *)

(** C9, amended: for every sequence of Findings whose namespaces, pod
    names and container names contain no space, line break or double
    quote, the three rendered reports carry the same five values per
    Finding: read back from its text, the table gives, row by row, the
    names and the flags of the Findings (["YES"]/["NO"] as booleans), the
    delimited report gives the same values line by line
    (["True"]/["False"] as booleans), and the structured report gives the
    same values record by record ([true]/[false]). *)
Theorem C9_reporters_carry_same_values (issues : list ContainerLimitIssue) :
  Forall (fun i => plain_issue i = true) issues ->
  table_reader.read (OutputFormatter.format_table issues) = Some (logical <$> issues) /\
  csv_reader.read (OutputFormatter.format_csv issues) = Some (logical <$> issues) /\
  fmap (M := option) (fmap logical)
    (json_reader.loads (OutputFormatter.format_json issues)) = Some (logical <$> issues).
Proof.
  intros Hplain. split; [|split].
  - apply read_format_table, Hplain.
  - apply read_format_csv, Hplain.
  - rewrite loads_format_json. reflexivity.
Qed.

Lemma C9_reporters_carry_same_values_witness :
  table_reader.read (OutputFormatter.format_table two_pods) = Some (logical <$> two_pods) /\
  csv_reader.read (OutputFormatter.format_csv two_pods) = Some (logical <$> two_pods) /\
  fmap (M := option) (fmap logical)
    (json_reader.loads (OutputFormatter.format_json two_pods)) = Some (logical <$> two_pods).
Proof.
  apply (C9_reporters_carry_same_values two_pods). repeat constructor.
Defined.

(** C9 as stated fails: the two Findings of [quoted_namespace] and
    [quoted_pod_name] differ in their namespace and pod name and have the
    same delimited report, because the fields are not escaped; so the
    delimited report does not carry the names of every Finding. *)
Lemma C9_reporters_carry_same_values_counterexample :
  ~ (OutputFormatter.format_csv quoted_namespace = OutputFormatter.format_csv quoted_pod_name ->
     logical <$> quoted_namespace = logical <$> quoted_pod_name).
Proof.
  intros H. specialize (H eq_refl). discriminate H.
Qed.
